(** * sunbeam: navigation stack, root list, command resolver, command-surface
      builder and filter accessor

    A shallow embedding of the Go sources

    - package [tui] (src/unnamed/part_000): [Model], [Update], [View],
      [SetSize], [Push], [Pop], [loadHistory], [NewRootList];
    - package [cmd]: [NewRunCmd] (src/unnamed/part_001), [NewCustomCmd] and
      [Execute] (src/cmd/root.go), [safeGet] (src/cmd/filter.go).

    Go [int] and [int64] values are integers of [Z]; the only arithmetic the
    modelled code performs on them is [idx-1] in [safeGet], whose wrap-around
    is written out.  Pages are heap objects behind the [Page] interface: the
    model holds references to them and the page objects live in a store. *)

From Stdlib Require Import ZArith String List Permutation Sorted.
From stdpp Require Import base gmap strings list fin_maps.

Local Open Scope Z_scope.
#[local] Set Warnings "-clear-no-such-hyp".

(* ===================================================================== *)
(** * Manifest data shared by the packages                                *)
(* ===================================================================== *)

Module App.

(** A parameter default is a Go [any] decoded from the manifest. *)
Inductive Any :=
| AnyNil
| AnyString (s : string)
| AnyBool (b : bool)
| AnyNumber (n : Z)
| AnyOther (tag : nat).

(** Modelled from the spec: the declarations of [Param], [Command],
    [RootItem] and [Extension] are not in the sources at hand; the fields
    are the ones the code reads (section 3 and 6 of the specification). *)
Record Param := mkParam {
  param_Name        : string;
  param_Type        : string;
  param_Description : string;
  param_Default     : Any;
  param_Optional    : bool
}.

Definition ParamTypeString : string := "string".
Definition ParamTypeBoolean : string := "boolean".

Record SubCommand := mkSubCommand {
  sub_Entrypoint : string
}.

Record Command := mkCommand {
  cmd_Name        : string;
  cmd_Title       : string;
  cmd_Description : string;
  cmd_Hidden      : bool;
  cmd_Entrypoint  : string;
  cmd_Params      : list Param;
  cmd_SubCommands : gmap string SubCommand
}.

(** The Go zero value, which indexing a map at a missing key yields. *)
Definition zeroCommand : Command := mkCommand "" "" "" false "" [] ∅.

Record RootItem := mkRootItem {
  item_Extension : string;
  item_Command   : string;
  item_Title     : string;
  item_With      : list (string * Any)
}.

Record Extension := mkExtension {
  ext_Title     : string;
  ext_RootItems : list RootItem;
  ext_Commands  : gmap string Command
}.

Definition zeroExtension : Extension := mkExtension "" [] ∅.

End App.

(* ===================================================================== *)
(** * Package tui: the navigation stack                                   *)
(* ===================================================================== *)

Module Tui.
Import App.

(** A [Page] interface value: a reference to a page object. *)
Definition PageRef := nat.

Record NamedExtension := mkNamedExtension {
  ne_Name      : string;
  ne_Extension : Extension
}.

Record NamedCommand := mkNamedCommand {
  nc_Name    : string;
  nc_Command : Command
}.

(** The concrete page objects.  [Detail] is built by the [error] case of
    [Update] and [CommandRunner] by the run action of the root list; every
    other variant is kept opaque. *)
Inductive PageBody :=
| Detail (title : string) (content : string)
| CommandRunner (extension : NamedExtension) (command : NamedCommand)
                (with_ : list (string * Any)) (args : list string)
| OtherPage (tag : nat).

Record PageState := mkPage {
  page_body   : PageBody;
  page_width  : Z;
  page_height : Z
}.

Abbreviation Heap := (gmap nat PageState).

Inductive KeyType := KeyEscape | KeyCtrlC | KeyRunes (code : Z).

(** The dynamic type of a [tea.Msg], in the order of the type switch of
    [Update].  [errorMsg] stands for any value implementing [error];
    its field is the result of [Error()]. *)
Inductive Msg :=
| KeyMsg (Type_ : KeyType)
| WindowSizeMsg (Width Height : Z)
| OpenUrlMsg (Url : string)
| CopyTextMsg (Text : string)
| PushPageMsg (Page : PageRef)
| pushMsg (container : PageRef)
| popMsg
| errorMsg (Error : string)
| QuitMsg
| otherMsg (tag : nat).

(** A [tea.Cmd] is a deferred function returning one message. *)
Inductive Cmd :=
| CmdNil
| CmdEmit (msg : Msg)
| CmdPageInit (p : PageRef)
| CmdPage (tag : nat).

(** [tea.Quit]: the command whose message ends the program loop. *)
Definition tea_Quit : Cmd := CmdEmit QuitMsg.

(** Modelled from the spec: [NewErrorCmd] is not in the sources at hand; the
    failure of a capability call is "converted to an error event". *)
Definition NewErrorCmd (err : string) : Cmd := CmdEmit (errorMsg err).

Definition PopCmd : Msg := popMsg.
Definition NewPushCmd (c : PageRef) : Cmd := CmdEmit (pushMsg c).

Record Model := mkModel {
  width  : Z;
  height : Z;
  root   : PageRef;
  pages  : list PageRef;
  hidden : bool;
  exit   : bool
}.

(** What the model calls but does not define: the two capability calls
    ([None] is a nil error) and the [View]/[Update] methods of the page
    variants. *)
Class Host := {
  browser_OpenURL    : string → option string;
  clipboard_WriteAll : string → option string;
  page_View          : PageState → string;
  page_Update        : Msg → PageRef → Heap → PageRef * Cmd * Heap
}.

Definition NewModel (root : PageRef) : Model :=
  mkModel 0 0 root [] false false.

Definition SetRoot (m : Model) (root : PageRef) : Model :=
  mkModel (width m) (height m) root (pages m) (hidden m) (exit m).

Definition Init (m : Model) : Cmd := CmdPageInit (root m).

Definition pageHeight (m : Model) : Z := height m.

(** [page.SetSize(w, h)] on the object behind [p]. *)
Definition setSize (w h : Z) (ps : PageState) : PageState :=
  mkPage (page_body ps) w h.

Definition page_SetSize (p : PageRef) (w h : Z) (hp : Heap) : Heap :=
  alter (setSize w h) p hp.

(** [NewDetail(title)]: a freshly allocated Detail page. *)
Definition NewDetail (title : string) (hp : Heap) : PageRef * Heap :=
  let d := fresh (dom hp) in
  (d, <[d := mkPage (Detail title "") 0 0]> hp).

(** [detail.viewport.SetContent(s)]. *)
Definition setContent (s : string) (ps : PageState) : PageState :=
  match page_body ps with
  | Detail t _ => mkPage (Detail t s) (page_width ps) (page_height ps)
  | _ => ps
  end.

Definition viewport_SetContent (p : PageRef) (s : string) (hp : Heap) : Heap :=
  alter (setContent s) p hp.

Definition SetSize (m : Model) (w h : Z) (hp : Heap) : Model * Heap :=
  let m1 := mkModel w h (root m) (pages m) (hidden m) (exit m) in
  let hp1 := page_SetSize (root m1) w (pageHeight m1) hp in
  (m1, foldl (fun acc page => page_SetSize page (width m1) (pageHeight m1) acc)
             hp1 (pages m1)).

Definition Push (m : Model) (page : PageRef) (hp : Heap) : Model * Cmd * Heap :=
  let hp1 := page_SetSize page (width m) (pageHeight m) hp in
  (mkModel (width m) (height m) (root m) (pages m ++ [page]) (hidden m) (exit m),
   CmdPageInit page, hp1).

Definition Pop (m : Model) : Model :=
  if (0 <? length (pages m))%nat
  then mkModel (width m) (height m) (root m)
               (take (length (pages m) - 1) (pages m)) (hidden m) (exit m)
  else m.

(** The page [View] renders and the tail of [Update] forwards to. *)
Definition active (m : Model) : PageRef :=
  match last (pages m) with
  | Some p => p
  | None => root m
  end.

Definition view_at `{Host} (hp : Heap) (p : PageRef) : string :=
  match hp !! p with
  | Some ps => page_View ps
  | None => ""
  end.

Section WithHost.
Context `{Host}.

(** The code after the type switch: "Update the current page". *)
Definition updateCurrent (m : Model) (msg : Msg) (hp : Heap) : Model * Cmd * Heap :=
  if (length (pages m) =? 0)%nat then
    let '(p, cmd, hp1) := page_Update msg (root m) hp in
    (mkModel (width m) (height m) p (pages m) (hidden m) (exit m), cmd, hp1)
  else
    let currentPageIdx := (length (pages m) - 1)%nat in
    match pages m !! currentPageIdx with
    | Some cur =>
        let '(p, cmd, hp1) := page_Update msg cur hp in
        (mkModel (width m) (height m) (root m)
                 (<[currentPageIdx := p]> (pages m)) (hidden m) (exit m),
         cmd, hp1)
    | None => (m, CmdNil, hp)
    end.

Definition Update (m : Model) (msg : Msg) (hp : Heap) : Model * Cmd * Heap :=
  match msg with
  | KeyMsg KeyCtrlC =>
      (mkModel (width m) (height m) (root m) (pages m) true true, tea_Quit, hp)
  | KeyMsg _ => updateCurrent m msg hp
  | WindowSizeMsg w h =>
      let '(m1, hp1) := SetSize m w h hp in (m1, CmdNil, hp1)
  | OpenUrlMsg url =>
      match browser_OpenURL url with
      | Some err => (m, NewErrorCmd err, hp)
      | None =>
          (mkModel (width m) (height m) (root m) (pages m) true (exit m),
           tea_Quit, hp)
      end
  | CopyTextMsg text =>
      match clipboard_WriteAll text with
      | Some err =>
          (m, NewErrorCmd ("failed to copy text to clipboard: " +:+ err), hp)
      | None =>
          (mkModel (width m) (height m) (root m) (pages m) true (exit m),
           tea_Quit, hp)
      end
  | PushPageMsg page => Push m page hp
  | pushMsg container => Push m container hp
  | popMsg =>
      if (length (pages m) =? 0)%nat then (m, tea_Quit, hp)
      else (Pop m, CmdNil, hp)
  | errorMsg e =>
      let '(detail, hp1) := NewDetail "Error" hp in
      let hp2 := page_SetSize detail (width m) (pageHeight m) hp1 in
      let hp3 := viewport_SetContent detail e hp2 in
      let m1 :=
        if (length (pages m) =? 0)%nat
        then mkModel (width m) (height m) detail (pages m) (hidden m) (exit m)
        else mkModel (width m) (height m) (root m)
                     (<[(length (pages m) - 1)%nat := detail]> (pages m))
                     (hidden m) (exit m) in
      (m1, CmdPageInit detail, hp3)
  | QuitMsg => updateCurrent m msg hp
  | otherMsg _ => updateCurrent m msg hp
  end.

Definition View (m : Model) (hp : Heap) : string :=
  if hidden m then ""
  else if (0 <? length (pages m))%nat then
    match pages m !! (length (pages m) - 1)%nat with
    | Some currentPage => view_at hp currentPage
    | None => ""
    end
  else view_at hp (root m).

(** The program loop of the runtime ([p.Run()] in [Draw]): messages are
    handled one at a time by [Update]; the loop ends when the quit message
    arrives, which is what returning [tea.Quit] causes.  The result carries
    [true] when the loop ended by quitting. *)
Fixpoint run (m : Model) (hp : Heap) (msgs : list Msg) : Model * Heap * bool :=
  match msgs with
  | [] => (m, hp, false)
  | QuitMsg :: _ => (m, hp, true)
  | msg :: rest =>
      let '(m1, cmd, hp1) := Update m msg hp in
      match cmd with
      | CmdEmit QuitMsg => (m1, hp1, true)
      | _ => run m1 hp1 rest
      end
  end.

End WithHost.

(** ** The root list and its history *)

(** A Go [map[string]int64]: [None] is the nil map, on which reads find
    nothing and an assignment panics. *)
Abbreviation History := (option (gmap string Z)).

Definition map_index (history : History) (k : string) : Z * bool :=
  match history with
  | Some tbl =>
      match tbl !! k with
      | Some v => (v, true)
      | None => (0, false)
      end
  | None => (0, false)
  end.

(** What [json.Unmarshal] makes of the bytes of the history file when the
    target is a [map[string]int64].  A syntax error stores nothing.  The
    JSON value [null] sets the map to nil: encoding/json documents that
    "the JSON null value unmarshals into an interface, map, pointer, or
    slice by setting that Go value to nil".  Any other document stores the
    entries it could decode into the existing map, with or without a type
    error. *)
Inductive FileData :=
| NotJSON
| JSONNull
| JSONEntries (entries : list (string * Z)).

Definition json_Unmarshal (data : FileData) (history : History) : History :=
  match data with
  | NotJSON => history
  | JSONNull => None
  | JSONEntries entries =>
      Some (foldl (fun tbl kv => <[kv.1 := kv.2]> tbl)
                  (default ∅ history) entries)
  end.

(** [json.Marshal] of the map: [null] for the nil map. *)
Definition json_Marshal (history : History) : FileData :=
  match history with
  | None => JSONNull
  | Some tbl => JSONEntries (map_to_list tbl)
  end.

Inductive StatResult := StatOk | StatNotExist | StatError.

Definition os_IsNotExist (r : StatResult) : bool :=
  match r with StatNotExist => true | _ => false end.

(** The operating system as the root list sees it.  Every call may fail;
    [false] is a non-nil error. *)
Class OS := {
  os_Getenv      : string → string;
  os_ReadFile    : string → option FileData;
  os_Stat        : string → StatResult;
  os_MkdirAll    : string → bool;
  os_WriteFile   : string → FileData → bool;
  time_Now_Unix  : Z
}.

(** [path.Join] on components that are already clean. *)
Definition path_Join (parts : list string) : string :=
  match parts with
  | [] => ""
  | p :: rest => foldl (fun acc q => acc +:+ "/" +:+ q) p rest
  end.

Definition loadHistory `{OS} (historyPath : string) : History :=
  let history : History := Some ∅ in
  match os_ReadFile historyPath with
  | None => history
  | Some data => json_Unmarshal data history
  end.

(** The trace of what a deferred action did, oldest first. *)
Inductive Effect :=
| EffAssign (id : string) (t : Z)
| EffStat (path : string)
| EffMkdirAll (path : string) (perm : Z)
| EffWriteFile (path : string) (data : FileData) (perm : Z).

Record World := mkWorld {
  w_history : History;
  w_heap    : Heap;
  w_trace   : list Effect
}.

Inductive Result (A : Type) :=
| Returned (a : A) (w : World)
| Panicked (reason : string) (w : World).
Arguments Returned {A} a w.
Arguments Panicked {A} reason w.

(** Deferred work: a computation over the world that returns or panics. *)
Definition IO (A : Type) : Type := World → Result A.

Definition io_ret {A} (a : A) : IO A := fun w => Returned a w.

Definition io_bind {A B} (c : IO A) (k : A → IO B) : IO B :=
  fun w =>
    match c w with
    | Returned a w1 => k a w1
    | Panicked r w1 => Panicked r w1
    end.

#[global] Instance IO_ret : MRet IO := @io_ret.
#[global] Instance IO_bind : MBind IO := fun A B k c => io_bind c k.

Definition emit (e : Effect) : IO unit :=
  fun w => Returned tt (mkWorld (w_history w) (w_heap w) (w_trace w ++ [e])).

(** [history[id] = t] *)
Definition history_assign (id : string) (t : Z) : IO unit :=
  fun w =>
    match w_history w with
    | None => Panicked "assignment to entry in nil map" w
    | Some tbl =>
        Returned tt (mkWorld (Some (<[id := t]> tbl)) (w_heap w)
                             (w_trace w ++ [EffAssign id t]))
    end.

Definition read_history : IO History := fun w => Returned (w_history w) w.

Definition io_Stat `{OS} (path : string) : IO StatResult :=
  emit (EffStat path) ;; mret (os_Stat path).

Definition io_MkdirAll `{OS} (path : string) (perm : Z) : IO bool :=
  emit (EffMkdirAll path perm) ;; mret (os_MkdirAll path).

Definition io_WriteFile `{OS} (path : string) (data : FileData) (perm : Z)
  : IO bool :=
  emit (EffWriteFile path data perm) ;; mret (os_WriteFile path data).

(** Modelled from the spec: [NewCommandRunner] is not in the sources at hand;
    it builds "a new Command-Runner page bound to that item's
    extension/command/parameters". *)
Definition NewCommandRunner (extension : NamedExtension) (command : NamedCommand)
    (with_ : list (string * Any)) (args : list string) : IO PageRef :=
  fun w =>
    let p := fresh (dom (w_heap w)) in
    Returned p (mkWorld (w_history w)
                        (<[p := mkPage (CommandRunner extension command with_ args) 0 0]>
                           (w_heap w))
                        (w_trace w)).

Record RootItemWithID := mkRootItemWithID {
  ri_RootItem : RootItem;
  ri_id       : string
}.

(** The closure stored in [Action.Cmd], as the variables it captures. *)
Inductive ActionCmd :=
| RunCommandCmd (stateDir historyPath : string) (rootItem : RootItemWithID)
                (extension : Extension).

Record Action := mkAction {
  act_Title    : string;
  act_Shortcut : string;
  act_Cmd      : ActionCmd
}.

Record ListItem := mkListItem {
  li_Id          : string;
  li_Title       : string;
  li_Subtitle    : string;
  li_Accessories : list string;
  li_Actions     : list Action
}.

Definition ID (i : ListItem) : string := li_Id i.

Definition map_get_Command (cs : gmap string Command) (k : string) : Command :=
  default zeroCommand (cs !! k).

Definition map_get_Extension (es : gmap string Extension) (k : string) : Extension :=
  default zeroExtension (es !! k).

(** The body of the "Run Command" closure of [NewRootList]. *)
Definition runCommandCmd `{OS} (stateDir historyPath : string)
    (rootItem : RootItemWithID) (extension : Extension) : IO Msg :=
  history_assign (ri_id rootItem) time_Now_Unix ;;
  st ← io_Stat stateDir ;
  (if os_IsNotExist st then io_MkdirAll stateDir 493 ;; mret tt else mret tt) ;;
  history ← read_history ;
  io_WriteFile historyPath (json_Marshal history) 420 ;;
  page ← NewCommandRunner
            (mkNamedExtension (item_Extension (ri_RootItem rootItem)) extension)
            (mkNamedCommand (item_Command (ri_RootItem rootItem))
               (map_get_Command (ext_Commands extension)
                                (item_Command (ri_RootItem rootItem))))
            (item_With (ri_RootItem rootItem))
            [] ;
  mret (PushPageMsg page).

Definition runAction `{OS} (c : ActionCmd) : IO Msg :=
  match c with
  | RunCommandCmd stateDir historyPath rootItem extension =>
      runCommandCmd stateDir historyPath rootItem extension
  end.

(** [list.filter.Less] as installed by [NewRootList]. *)
Definition Less (history : History) (i j : ListItem) : bool :=
  let '(iValue, ok) := map_index history (ID i) in
  let iValue := if negb ok then 0 else iValue in
  let '(jValue, ok) := map_index history (ID j) in
  let jValue := if negb ok then 0 else jValue in
  iValue >? jValue.

(** The items [NewRootList] hands to [list.SetItems], in order.  The outer
    loop ranges over a Go map, whose order is not fixed; [map_to_list] is one
    such order. *)
Definition rootItemsOf (extensionMap : gmap string Extension)
    (additionalItems : list RootItem) : list RootItemWithID :=
  let fromExtensions :=
    flat_map (fun '(extensionName, extension) =>
      List.map (fun rootItem =>
             mkRootItemWithID
               (mkRootItem extensionName (item_Command rootItem)
                           (item_Title rootItem) (item_With rootItem))
               (extensionName +:+ ":" +:+ item_Title rootItem))
          (ext_RootItems extension))
      (map_to_list extensionMap) in
  let fromConfig :=
    flat_map (fun item =>
      match extensionMap !! item_Extension item with
      | None => []
      | Some _ => [mkRootItemWithID item ("config:" +:+ item_Title item)]
      end) additionalItems in
  fromExtensions ++ fromConfig.

Definition listItemOf (stateDir historyPath : string)
    (extensionMap : gmap string Extension) (rootItem : RootItemWithID) : ListItem :=
  let extension := map_get_Extension extensionMap
                     (item_Extension (ri_RootItem rootItem)) in
  mkListItem (ri_id rootItem) (item_Title (ri_RootItem rootItem))
    (ext_Title extension) [item_Extension (ri_RootItem rootItem)]
    [mkAction "Run Command" "enter"
       (RunCommandCmd stateDir historyPath rootItem extension)].

(** Modelled from the spec: the List/Filter engine that consumes
    [filter.Less] is not in the sources at hand.  The specification asks for a
    stable sort under the installed comparator; this is the insertion sort
    that keeps an element behind every earlier element it is not strictly
    less than. *)
Fixpoint stable_insert {A} (less : A → A → bool) (x : A) (l : list A) : list A :=
  match l with
  | [] => [x]
  | y :: l' => if less x y then x :: y :: l' else y :: stable_insert less x l'
  end.

Definition stable_sort {A} (less : A → A → bool) (l : list A) : list A :=
  foldl (fun acc x => stable_insert less x acc) [] l.

Record RootList := mkRootList {
  rl_title   : string;
  rl_history : History;
  rl_items   : list ListItem
}.

Definition NewRootList `{OS} (extensionMap : gmap string Extension)
    (additionalItems : list RootItem) : RootList :=
  let stateDir := path_Join [os_Getenv "HOME"; ".local"; "state"; "sunbeam"] in
  let historyPath := path_Join [stateDir; "history.json"] in
  let history := loadHistory historyPath in
  let rootItems := rootItemsOf extensionMap additionalItems in
  let listItems := List.map (listItemOf stateDir historyPath extensionMap) rootItems in
  mkRootList "Sunbeam" history listItems.

(** The order in which the root list shows its items. *)
Definition sortedItems (l : RootList) : list ListItem :=
  stable_sort (Less (rl_history l)) (rl_items l).

End Tui.

(** ** The navigation events, read without the model

    The property the stack is checked against: scanning a sequence of push
    and pop events from its end, every pop cancels the nearest earlier push
    that is not cancelled yet; the first push met with nothing to cancel is
    the last pushed page that was not popped. *)

Module NavSpec.
Import Tui.

Inductive NavEvent :=
| NavPushPage (p : PageRef)   (* a [PushPageMsg] *)
| NavPush (p : PageRef)       (* a [pushMsg] *)
| NavPop.                     (* a [popMsg] *)

Definition msg_of (e : NavEvent) : Msg :=
  match e with
  | NavPushPage p => PushPageMsg p
  | NavPush p => pushMsg p
  | NavPop => popMsg
  end.

Definition pushed (e : NavEvent) : option PageRef :=
  match e with
  | NavPushPage p | NavPush p => Some p
  | NavPop => None
  end.

(** [scan_back] reads the events newest first; [pops] counts the pops met
    that still wait for their push. *)
Fixpoint scan_back (newest_first : list NavEvent) (pops : nat) (root : PageRef)
  : PageRef :=
  match newest_first with
  | [] => root
  | e :: older =>
      match pushed e, pops with
      | None, _ => scan_back older (S pops) root
      | Some p, O => p
      | Some _, S pops' => scan_back older pops' root
      end
  end.

Definition last_unpopped (root : PageRef) (evs : list NavEvent) : PageRef :=
  scan_back (rev evs) 0 root.

(** The events that precede the first pop arriving with as many pops as
    pushes before it, and whether there is such a pop. [depth] is the number
    of pushes not yet popped. *)
Fixpoint handled (depth : nat) (evs : list NavEvent) : list NavEvent * bool :=
  match evs with
  | [] => ([], false)
  | e :: rest =>
      match pushed e, depth with
      | Some _, _ => let '(l, q) := handled (S depth) rest in (e :: l, q)
      | None, O => ([], true)
      | None, S d => let '(l, q) := handled d rest in (e :: l, q)
      end
  end.

End NavSpec.

(** ** Notions about the model's own messages *)

Module StackSpec.
Import Tui.

(** The messages [Update] does not handle itself and hands to the active
    page: every key but the interrupt key, and every message type outside
    the type switch. *)
Definition forwarded (msg : Msg) : bool :=
  match msg with
  | KeyMsg KeyCtrlC => false
  | KeyMsg _ | QuitMsg | otherMsg _ => true
  | _ => false
  end.

(** The page a message asks the model to push. *)
Definition page_of (msg : Msg) : option PageRef :=
  match msg with
  | PushPageMsg p | pushMsg p => Some p
  | _ => None
  end.

(** Page [p] is allocated and has the model's dimensions. *)
Definition fits (m : Model) (hp : Heap) (p : PageRef) : Prop :=
  ∃ ps, hp !! p = Some ps ∧ page_width ps = width m ∧ page_height ps = height m.

(** Every page the model holds, root and stack, has the model's
    dimensions. *)
Definition sized (m : Model) (hp : Heap) : Prop :=
  Forall (fits m hp) (root m :: pages m).

End StackSpec.

(** ** Notions about the items of the root list *)

Module ListSpec.
Import App Tui.




End ListSpec.

(* ===================================================================== *)
(** * Package cmd                                                         *)
(* ===================================================================== *)

Module Cmd.
Import App.

(** Go [error] values, by how the code builds them: the [ExitCodeError]
    struct, [fmt.Errorf] with a message, [fmt.Errorf] wrapping an error with
    [%w], the two errors of [NewCustomCmd] ("invalid default value for %s:
    %v" and "unsupported argument type: %s"), and errors that come from
    outside. *)
Inductive error :=
| ExitCodeError (ExitCode : Z)
| Errorf (msg : string)
| Wrapped (prefix : string) (inner : error)
| InvalidDefault (name : string) (value : Any)
| UnsupportedType (type : string)
| External (what : string).

(** A Go call that returns a value or panics at run time. *)
Inductive Go (A : Type) :=
| Val (a : A)
| Panic (reason : string).
Arguments Val {A} a.
Arguments Panic {A} reason.

(** ** src/cmd/filter.go *)

Definition int_min : Z := - 2 ^ 63.
Definition int_max : Z := 2 ^ 63 - 1.

(** 64-bit two's complement wrap-around of Go [int] arithmetic. *)
Definition int_wrap (z : Z) : Z := (z + 2 ^ 63) mod 2 ^ 64 - 2 ^ 63.

(** [tokens[i]]: bounds-checked slice indexing. *)
Definition index (tokens : list string) (i : Z) : Go string :=
  if (i <? 0) || (Z.of_nat (length tokens) <=? i) then
    Panic "index out of range"
  else
    match tokens !! Z.to_nat i with
    | Some s => Val s
    | None => Panic "index out of range"
    end.

Definition safeGet (tokens : list string) (idx : Z) : Go string :=
  if idx =? 0 then Val ""
  else if idx >? Z.of_nat (length tokens) then Val ""
  else index tokens (int_wrap (idx - 1)).

Fixpoint safeGetAll (tokens : list string) (nths : list Z) : Go (list string) :=
  match nths with
  | [] => Val []
  | nth :: rest =>
      match safeGet tokens nth with
      | Panic r => Panic r
      | Val s =>
          match safeGetAll tokens rest with
          | Panic r => Panic r
          | Val acc => Val (s :: acc)
          end
      end
  end.

(** The [--with-nth] branch of the row loop of [NewFilterCmd]: title,
    subtitle and accessories of one row. *)
Definition withNth (tokens : list string) (nths : list Z)
  : Go (string * string * list string) :=
  match nths with
  | [] => Panic "index out of range"
  | n0 :: rest =>
      match safeGet tokens n0 with
      | Panic r => Panic r
      | Val title =>
          match rest with
          | [] => Val (title, "", [])
          | n1 :: rest2 =>
              match safeGet tokens n1 with
              | Panic r => Panic r
              | Val subtitle =>
                  match safeGetAll tokens rest2 with
                  | Panic r => Panic r
                  | Val accessories => Val (title, subtitle, accessories)
                  end
              end
          end
      end
  end.

(** *** The rows of the filter command *)

(** [types.ListItem], [types.Action] and [types.Page], by the fields
    [NewFilterCmd] sets. *)
Inductive ActionType := PasteAction | OtherAction (name : string).
Inductive PageType := ListPage | OtherPageType (name : string).

Record TAction := mkTAction {
  ta_Type  : ActionType;
  ta_Title : string;
  ta_Text  : string
}.

Record TListItem := mkTListItem {
  tl_Title       : string;
  tl_Subtitle    : string;
  tl_Accessories : list string;
  tl_Actions     : list TAction
}.

Record TPage := mkTPage {
  tp_Type  : PageType;
  tp_Title : string;
  tp_Items : list TListItem
}.

(** The errors [RunE] of the filter command builds, with the error they
    quote. *)
Inductive FilterError :=
| NoInput                       (* "no input provided" *)
| CouldNotRead (err : error)    (* "could not read input: %s" *)
| NoRows                        (* "now rows in input" *)
| InvalidJSON (err : error).    (* "invalid JSON: %s" *)

(** [strings.Split(s, sep)] and [bytes.Split(s, sep)] for a non-empty
    separator: the text is cut at every occurrence of [sep], found from
    left to right without overlap.  [skip] counts the bytes of an
    occurrence still to pass over and [cur] is the piece under way. *)
Fixpoint split_scan (sep : string) (skip : nat) (cur s : string) : list string :=
  match s with
  | EmptyString => [cur]
  | String ch s' =>
      match skip with
      | S k => split_scan sep k cur s'
      | O =>
          if String.prefix sep s
          then cur :: split_scan sep (String.length sep - 1) "" s'
          else split_scan sep 0 (cur +:+ String ch "") s'
      end
  end.

(** The flags of the filter command as [RunE] reads them; an option is
    [None] when the flag was not changed on the command line. *)
Record FilterFlags := mkFilterFlags {
  fl_delimiter : string;
  fl_json      : bool;
  fl_with_nth  : option (list Z);
  fl_title     : option string
}.

(** What the filter command reaches outside of itself: standard input,
    the platform, [bytes.TrimSpace], [strings.Split] with the empty
    separator (one piece per UTF-8 sequence), and the JSON decoder of list
    items. *)
Class FilterEnv := {
  fe_IsTerminal   : bool;
  fe_ReadAll      : error + string;
  fe_windows      : bool;
  bytes_TrimSpace : string → string;
  utf8_explode    : string → list string;
  json_Unmarshal_ListItem : string → error + TListItem
}.

(** The row separators: carriage return and line feed on Windows, line
    feed elsewhere. *)
Definition lf : string := String (Ascii.ascii_of_nat 10) "".
Definition crlf : string := String (Ascii.ascii_of_nat 13) lf.

Section Filter.
Context `{FilterEnv}.

Definition strings_Split (s sep : string) : list string :=
  if String.eqb sep "" then utf8_explode s else split_scan sep 0 "" s.

(** The branch of the row loop without [--with-nth]. *)
Definition firstFields (tokens : list string) : Go (string * string * list string) :=
  match index tokens 0 with
  | Panic r => Panic r
  | Val title =>
      let subtitle :=
        if (1 <? length tokens)%nat then default "" (tokens !! 1%nat) else "" in
      let accessories :=
        if (2 <? length tokens)%nat then drop 2 tokens else [] in
      Val (title, subtitle, accessories)
  end.

(** One turn of the loop over the rows. *)
Definition rowItem (flags : FilterFlags) (row : string)
  : Go (FilterError + TListItem) :=
  if fl_json flags then
    match json_Unmarshal_ListItem row with
    | inl err => Val (inl (InvalidJSON err))
    | inr v => Val (inr v)
    end
  else
    let tokens := strings_Split row (fl_delimiter flags) in
    let fields :=
      match fl_with_nth flags with
      | Some nths => withNth tokens nths
      | None => firstFields tokens
      end in
    match fields with
    | Panic r => Panic r
    | Val (title, subtitle, accessories) =>
        Val (inr (mkTListItem title subtitle accessories
                    [mkTAction PasteAction "Confirm" row]))
    end.

Fixpoint rowItems (flags : FilterFlags) (rows : list string)
    (listItems : list TListItem) : Go (FilterError + list TListItem) :=
  match rows with
  | [] => Val (inr listItems)
  | row :: rest =>
      match rowItem flags row with
      | Panic r => Panic r
      | Val (inl err) => Val (inl err)
      | Val (inr item) => rowItems flags rest (listItems ++ [item])
      end
  end.

(** The page generator handed to [Run]. *)
Definition filterPage (flags : FilterFlags) (title : string) (rows : list string)
  : Go (FilterError + TPage) :=
  match rowItems flags rows [] with
  | Panic r => Panic r
  | Val (inl err) => Val (inl err)
  | Val (inr listItems) => Val (inr (mkTPage ListPage title listItems))
  end.

(** The rows [RunE] cuts standard input into. *)
Definition inputRows (b : string) : list string :=
  let b := bytes_TrimSpace b in
  if fe_windows then split_scan crlf 0 "" b else split_scan lf 0 "" b.

(** [RunE] of the filter command: an error of its own, or the call of
    [Run] with the page generator, given here by what the generator
    yields. *)
Definition filterRunE (flags : FilterFlags)
  : FilterError + Go (FilterError + TPage) :=
  if fe_IsTerminal then inl NoInput
  else
    match fe_ReadAll with
    | inl err => inl (CouldNotRead err)
    | inr b =>
        let rows := inputRows b in
        if (length rows =? 0)%nat then inl NoRows
        else
          let title := default "Sunbeam" (fl_title flags) in
          inr (filterPage flags title rows)
    end.

End Filter.

(** ** src/unnamed/part_001: the run command *)

(** [types.Command]: what [runCommand] is asked to execute. *)
Record TCommand := mkTCommand {
  tc_Name  : string;
  tc_Args  : list string;
  tc_Input : string
}.

Inductive HttpResponse :=
| Response (StatusCode : Z) (Status : string) (Body : string).

(** Everything [RunE] reaches outside of itself.  A [sum] carries the
    error on the left; [None] is a nil error. *)
Class RunEnv := {
  stdin_IsTerminal : bool;
  stdin_ReadAll    : error + string;
  url_Parse        : string → error + string;   (* the parsed scheme *)
  http_Get         : string → error + HttpResponse;
  os_MkdirTemp     : error + string;
  os_OpenFile      : string → option error;
  io_Copy          : string → string → option error;
  file_Close       : string → option error;
  os_Stat          : string → error + bool;     (* IsDir *)
  findRoot         : string → error + string;
  filepath_Base    : string → string;
  filepath_Dir     : string → string;
  filepath_Join    : string → string → string;
  manifestName     : string;
  ParseCommand     : string → error + Command;
  runCommand       : TCommand → option error
}.

(** How a call of [RunE] ends: with the command it passed to [runCommand]
    and that call's error, with an error of its own, or (never, behind the
    argument check of the command) by indexing an empty argument list. *)
Inductive Outcome :=
| Ran (c : TCommand) (err : option error)
| Failed (err : error)
| Crashed (reason : string).

Record RunResult := mkRunResult {
  rr_stderr  : list string;
  rr_outcome : Outcome
}.

Definition quiet (o : Outcome) : RunResult := mkRunResult [] o.

Section Run.
Context `{RunEnv}.

Definition run (c : TCommand) : Outcome := Ran c (runCommand c).

(** The remote branch, entered when the origin is an https URL.  The
    deferred clean-up (closing the response body and the file, removing the
    temporary directory) runs after the result is fixed and is left out. *)
Definition runRemote (origin : string) (rest : list string) (input : string)
  : Outcome :=
  match http_Get origin with
  | inl err => Failed (Wrapped "could not fetch script: " err)
  | inr (Response StatusCode Status Body) =>
      if negb (StatusCode =? 200) then
        Failed (Errorf ("could not fetch script: " +:+ Status))
      else
        match os_MkdirTemp with
        | inl err => Failed err
        | inr tmpDir =>
            let scriptPath := filepath_Join tmpDir "sunbeam-command" in
            match os_OpenFile scriptPath with
            | Some err => Failed err
            | None =>
                match io_Copy scriptPath Body with
                | Some err => Failed err
                | None =>
                    match file_Close scriptPath with
                    | Some err => Failed err
                    | None => run (mkTCommand scriptPath rest input)
                    end
                end
            end
        end
  end.

(** The loop [for name, c := range command.SubCommands] that looks for the
    subcommand, over the entries in iteration order. *)
Fixpoint findSubCommand (entries : list (string * SubCommand)) (subcommand : string)
  : option SubCommand :=
  match entries with
  | [] => None
  | (name, c) :: rest =>
      if negb (String.eqb subcommand name) then findSubCommand rest subcommand
      else Some c
  end.

(** The dispatcher: the code after the entrypoint check. *)
Definition dispatch (scriptPath : string) (command : Command)
    (args : list string) (input : string) : RunResult :=
  if (length args <? 2)%nat then
    mkRunResult
      (["No subcommand provided"; "Subcommands:"] ++
       List.map (fun '(name, _) => "  - " +:+ name)
                (map_to_list (cmd_SubCommands command)))
      (Failed (ExitCodeError 1))
  else
    match args !! 1%nat with
    | None => quiet (Crashed "index out of range")
    | Some subcommand =>
        match findSubCommand (map_to_list (cmd_SubCommands command)) subcommand with
        | Some c =>
            quiet (run (mkTCommand
                          (filepath_Join (filepath_Dir scriptPath) (sub_Entrypoint c))
                          (drop 2 args) input))
        | None => quiet (Failed (Errorf ("subcommand not found: " +:+ subcommand)))
        end
    end.

(** The local part of [RunE], from [scriptPath := args[0]] on. *)
Definition runLocal (args : list string) (origin : string) (input : string)
  : RunResult :=
  let scriptPath := origin in
  match os_Stat scriptPath with
  | inl err => quiet (Failed err)
  | inr IsDir =>
      let located :=
        if IsDir then findRoot scriptPath else inr scriptPath in
      match located with
      | inl err => quiet (Failed err)
      | inr scriptPath =>
          if negb (String.eqb (filepath_Base scriptPath) manifestName) then
            quiet (run (mkTCommand scriptPath (drop 1 args) input))
          else
            match ParseCommand (filepath_Dir scriptPath) with
            | inl err => quiet (Failed (Wrapped "could not parse command: " err))
            | inr command =>
                if negb (String.eqb (cmd_Entrypoint command) "") then
                  quiet (run (mkTCommand
                                (filepath_Join (filepath_Dir scriptPath)
                                               (cmd_Entrypoint command))
                                (drop 1 args) input))
                else dispatch scriptPath command args input
            end
      end
  end.

Definition isHttps (origin : string) : bool :=
  match url_Parse origin with
  | inr scheme => String.eqb scheme "https"
  | inl _ => false
  end.

(** The input of [RunE]: all of standard input when it is not a terminal,
    the empty string otherwise. *)
Definition stdin_input : error + string :=
  if negb stdin_IsTerminal then stdin_ReadAll else inr "".

Definition RunE (args : list string) : RunResult :=
  match stdin_input with
  | inl err => quiet (Failed err)
  | inr input =>
      match args with
      | [] => quiet (Crashed "index out of range")
      | origin :: _ =>
          if isHttps origin then quiet (runRemote origin (drop 1 args) input)
          else runLocal args origin input
      end
  end.

(** The command as the argument parser runs it: [Args: MinimumNArgs(1)]
    rejects an empty argument list before [RunE] is called. *)
Definition NewRunCmd (args : list string) : RunResult :=
  if (length args <? 1)%nat then
    quiet (Failed (External "requires at least 1 arg(s)"))
  else RunE args.

End Run.

(** ** src/cmd/root.go *)

Record Manifest := mkManifest {
  mf_Title       : string;
  mf_Description : string;
  mf_Commands    : list Command
}.

Record Extension := mkExtension {
  ext_Manifest : Manifest
}.

Inductive FlagValue := FlagString (s : string) | FlagBool (b : bool).

(** A flag registered on a generated subcommand. *)
Record Flag := mkFlag {
  flag_Name     : string;
  flag_Default  : FlagValue;
  flag_Usage    : string;
  flag_Required : bool
}.

(** A generated subcommand; [sub_Command] is the manifest command its
    [RunE] closure captures. *)
Record SubCmd := mkSubCmd {
  sub_Use     : string;
  sub_Short   : string;
  sub_Long    : string;
  sub_Hidden  : bool;
  sub_Flags   : list Flag;
  sub_Command : Command
}.

Record CustomCmd := mkCustomCmd {
  cc_Use      : string;
  cc_Short    : string;
  cc_Long     : string;
  cc_GroupID  : string;
  cc_Commands : list SubCmd
}.

Definition coreGroupID : string := "core".
Definition extensionGroupID : string := "extension".

(** [subcmd.MarkFlagRequired(name)] *)
Definition MarkFlagRequired (name : string) (flags : list Flag) : list Flag :=
  List.map (fun f => if String.eqb (flag_Name f) name
                     then mkFlag (flag_Name f) (flag_Default f) (flag_Usage f) true
                     else f) flags.

(** [subcmd.Flags().String(name, value, usage)] and [Bool]: the flag
    library adds the flag to the flag set of the subcommand, and panics
    ("flag redefined") when the set already holds a flag of that name. *)
Definition defined (name : string) (flags : list Flag) : bool :=
  existsb (fun f => String.eqb (flag_Name f) name) flags.

Definition AddFlag (flag : Flag) (flags : list Flag) : Go (list Flag) :=
  if defined (flag_Name flag) flags
  then Panic ("flag redefined: " +:+ flag_Name flag)
  else Val (flags ++ [flag]).

(** One turn of the loop over [command.Params]: the type switch that
    checks the default and registers the flag, then the required mark.
    The flag set of the subcommand is the list of the flags registered so
    far. *)
Definition addParam (argument : Param) (flags : list Flag) : Go (error + list Flag) :=
  let registered : Go (error + list Flag) :=
    if String.eqb (param_Type argument) ParamTypeString then
      let defaultValue : error + string :=
        match param_Default argument with
        | AnyNil => inr ""
        | AnyString d => inr d
        | other => inl (InvalidDefault (param_Name argument) other)
        end in
      match defaultValue with
      | inl err => Val (inl err)
      | inr d =>
          match AddFlag (mkFlag (param_Name argument) (FlagString d)
                                (param_Description argument) false) flags with
          | Panic r => Panic r
          | Val flags => Val (inr flags)
          end
      end
    else if String.eqb (param_Type argument) ParamTypeBoolean then
      let defaultValue : error + bool :=
        match param_Default argument with
        | AnyNil => inr false
        | AnyBool d => inr d
        | other => inl (InvalidDefault (param_Name argument) other)
        end in
      match defaultValue with
      | inl err => Val (inl err)
      | inr d =>
          match AddFlag (mkFlag (param_Name argument) (FlagBool d)
                                (param_Description argument) false) flags with
          | Panic r => Panic r
          | Val flags => Val (inr flags)
          end
      end
    else Val (inl (UnsupportedType (param_Type argument))) in
  match registered with
  | Panic r => Panic r
  | Val (inl err) => Val (inl err)
  | Val (inr flags) =>
      if negb (param_Optional argument)
      then Val (inr (MarkFlagRequired (param_Name argument) flags))
      else Val (inr flags)
  end.

Fixpoint addParams (params : list Param) (flags : list Flag)
  : Go (error + list Flag) :=
  match params with
  | [] => Val (inr flags)
  | argument :: rest =>
      match addParam argument flags with
      | Panic r => Panic r
      | Val (inl err) => Val (inl err)
      | Val (inr flags) => addParams rest flags
      end
  end.

(** The loop over [extension.Manifest.Commands]; [subs] are the
    subcommands added to [cmd] so far. *)
Fixpoint addCommands (commands : list Command) (subs : list SubCmd)
  : Go (error + list SubCmd) :=
  match commands with
  | [] => Val (inr subs)
  | command :: rest =>
      match addParams (cmd_Params command) [] with
      | Panic r => Panic r
      | Val (inl err) => Val (inl err)
      | Val (inr flags) =>
          addCommands rest
            (subs ++ [mkSubCmd (cmd_Name command) (cmd_Title command)
                               (cmd_Description command) (cmd_Hidden command)
                               flags command])
      end
  end.

Definition NewCustomCmd (name : string) (extension : Extension)
  : Go (error + CustomCmd) :=
  match addCommands (mf_Commands (ext_Manifest extension)) [] with
  | Panic r => Panic r
  | Val (inl err) => Val (inl err)
  | Val (inr subs) =>
      Val (inr (mkCustomCmd name (mf_Title (ext_Manifest extension))
                            (mf_Description (ext_Manifest extension))
                            extensionGroupID subs))
  end.

(** *** Running a generated subcommand *)

(** The flags of a subcommand when its [RunE] runs, after the command
    line was parsed: each registered flag with its current value, the
    default unless the command line set it. *)
Definition flagValue (values : list (string * FlagValue)) (name : string)
  : option FlagValue :=
  snd <$> List.find (fun nv => String.eqb (fst nv) name) values.

(** [cmd.Flags().GetString(name)] and [GetBool(name)]: the flag must be
    defined and of the type asked for. *)
Definition GetString (values : list (string * FlagValue)) (name : string)
  : error + string :=
  match flagValue values name with
  | None => inl (External ("flag accessed but not defined: " +:+ name))
  | Some (FlagString s) => inr s
  | Some (FlagBool _) =>
      inl (External "trying to get string value of flag of type bool")
  end.

Definition GetBool (values : list (string * FlagValue)) (name : string)
  : error + bool :=
  match flagValue values name with
  | None => inl (External ("flag accessed but not defined: " +:+ name))
  | Some (FlagBool b) => inr b
  | Some (FlagString _) =>
      inl (External "trying to get bool value of flag of type string")
  end.

(** The loop of [RunE] over [command.Params] that fills [argumentMap]. *)
Fixpoint collectParams (params : list Param) (values : list (string * FlagValue))
    (argumentMap : gmap string FlagValue) : error + gmap string FlagValue :=
  match params with
  | [] => inr argumentMap
  | argument :: rest =>
      if String.eqb (param_Type argument) ParamTypeString then
        match GetString values (param_Name argument) with
        | inl err => inl err
        | inr value =>
            collectParams rest values
              (<[param_Name argument := FlagString value]> argumentMap)
        end
      else if String.eqb (param_Type argument) ParamTypeBoolean then
        match GetBool values (param_Name argument) with
        | inl err => inl err
        | inr value =>
            collectParams rest values
              (<[param_Name argument := FlagBool value]> argumentMap)
        end
      else inl (UnsupportedType (param_Type argument))
  end.

(** [extension.Run(name, input)], which is not in the sources at hand, as
    an environment: the output of the extension's command, or an error. *)
Class ExtensionEnv := {
  extension_Run : Extension → string → gmap string FlagValue → error + string
}.

(** How the [RunE] of a generated subcommand ends: with an error, or with
    the output it wrote to standard output. *)
Inductive Invocation :=
| InvokeFailed (err : error)
| Written (output : string).

Definition subRunE `{ExtensionEnv} (extension : Extension) (command : Command)
    (values : list (string * FlagValue)) : Invocation :=
  match collectParams (cmd_Params command) values ∅ with
  | inl err => InvokeFailed err
  | inr argumentMap =>
      match extension_Run extension (cmd_Name command) argumentMap with
      | inl err => InvokeFailed err
      | inr output => Written output
      end
  end.

(** A child of the root command: one of the built-in commands, or a
    generated extension command. *)
Inductive RootChild :=
| Core (use : string)
| Custom (c : CustomCmd).

(** How [Execute] ends: it returns an error of its own before the root
    command runs, or it returns what [rootCmd.Execute()] returns, with the
    children registered by then. *)
Inductive ExecOutcome :=
| Aborted (err : error)
| Executed (children : list RootChild) (err : option error).

(** [LoadExtensions] yields a map; the list is the map in the order the
    [range] loop visits it. *)
Class ExecEnv := {
  LoadExtensions  : error + list (string * Extension);
  rootCmd_Execute : list RootChild → option error
}.

Fixpoint addExtensions (extensions : list (string * Extension))
    (children : list RootChild) : Go (error + list RootChild) :=
  match extensions with
  | [] => Val (inr children)
  | (name, extension) :: rest =>
      match NewCustomCmd name extension with
      | Panic r => Panic r
      | Val (inl err) => Val (inl err)
      | Val (inr cmd) => addExtensions rest (children ++ [Custom cmd])
      end
  end.

(** [Execute] returns an outcome, or panics where [NewCustomCmd] does. *)
Definition Execute `{ExecEnv} : Go ExecOutcome :=
  let children :=
    [Core "run"; Core "validate"; Core "docs"; Core "generate-man-pages"] in
  match LoadExtensions with
  | inl err => Val (Aborted err)
  | inr extensions =>
      let children := children ++ [Core "extension"; Core "serve"] in
      if (length extensions =? 0)%nat then
        Val (Executed children (rootCmd_Execute children))
      else
        match addExtensions extensions children with
        | Panic r => Panic r
        | Val (inl err) => Val (Aborted err)
        | Val (inr children) => Val (Executed children (rootCmd_Execute children))
        end
  end.

(** *** The documentation page *)

(** A command of the tree [buildDoc] walks: its group, what
    [doc.GenMarkdown] yields for it, and its children as [Commands()]
    lists them. *)
#[local] Unset Elimination Schemes.
Inductive DocCommand :=
| DocNode (GroupID : string) (markdown : error + string)
          (children : list DocCommand).
#[local] Set Elimination Schemes.

(** [strings.Contains(s, substr)] *)
Fixpoint contains (substr s : string) : bool :=
  String.prefix substr s
  || match s with
     | EmptyString => false
     | String _ s' => contains substr s'
     end.

(** The loop over the lines of the page: a line is written with a line
    feed until one contains "SEE ALSO". *)
Fixpoint keepLines (lines : list string) (out : string) : string :=
  match lines with
  | [] => out
  | line :: rest =>
      if contains "SEE ALSO" line then out
      else keepLines rest (out +:+ line +:+ lf)
  end.

Fixpoint buildDoc (command : DocCommand) : error + string :=
  match command with
  | DocNode groupID markdown children =>
      if String.eqb groupID extensionGroupID then inr ""
      else
        match markdown with
        | inl err => inl err
        | inr page =>
            (fix childPages (cs : list DocCommand) (out : string) : error + string :=
               match cs with
               | [] => inr out
               | child :: rest =>
                   match buildDoc child with
                   | inl err => inl err
                   | inr childPage => childPages rest (out +:+ childPage)
                   end
               end) children (keepLines (split_scan lf 0 "" page) "")
        end
  end.

End Cmd.

(* ===================================================================== *)
(** * Reference notions and sample data                                   *)
(* ===================================================================== *)

(** These come after the packages: each notion below is what a property of
    the code is measured against, and the sample data instantiate the
    environments the code is parameterised by. *)

Module RootSpec.
Import App Tui.

(** The last-run timestamp of an item, 0 for an item never run. *)
Definition timestamp (history : History) (i : ListItem) : Z :=
  match history with
  | Some tbl => default 0 (tbl !! ID i)
  | None => 0
  end.

(** A list ranked by descending key: no element is followed, at any
    distance, by one with a larger key. *)
Definition ranked {A} (key : A → Z) (l : list A) : Prop :=
  StronglySorted (fun a b => key b <= key a) l.

(** The elements of [l] whose key is [t], in the order of [l]. *)
Definition with_key {A} (key : A → Z) (t : Z) (l : list A) : list A :=
  filter (fun a => key a = t) l.

(** The world a run action leaves behind when the history is a table. *)
Definition after_run `{OS} (stateDir historyPath : string)
    (rootItem : RootItemWithID) (extension : Extension)
    (tbl : gmap string Z) (hp : Heap) (tr : list Effect) : World :=
  let tbl' := <[ri_id rootItem := time_Now_Unix]> tbl in
  let item := ri_RootItem rootItem in
  mkWorld (Some tbl')
    (<[fresh (dom hp) :=
         mkPage (CommandRunner
                   (mkNamedExtension (item_Extension item) extension)
                   (mkNamedCommand (item_Command item)
                      (map_get_Command (ext_Commands extension) (item_Command item)))
                   (item_With item) [])
                0 0]> hp)
    (tr ++ [EffAssign (ri_id rootItem) time_Now_Unix; EffStat stateDir]
        ++ (if os_IsNotExist (os_Stat stateDir) then [EffMkdirAll stateDir 493] else [])
        ++ [EffWriteFile historyPath (JSONEntries (map_to_list tbl')) 420]).

End RootSpec.

(** ** The resolver, read as an ordered list of rules

    Each rule answers [None] when the origin is not of its kind and the
    verdict otherwise; the first rule that answers decides.  The local
    directory rule is the reduction [locate], which the three rules after it
    start from. *)

Module CmdSpec.
Import App Cmd.

Section Rules.
Context `{RunEnv}.
Variables (origin : string) (rest : list string) (input : string).

(** Rule 2: a directory stands for the manifest found in it. *)
Definition locate : error + string :=
  match os_Stat origin with
  | inl err => inl err
  | inr true => findRoot origin
  | inr false => inr origin
  end.

(** Rule 1: remote. *)
Definition rule_remote : option RunResult :=
  if isHttps origin then Some (quiet (runRemote origin rest input)) else None.

(** Rule 3: plain executable. *)
Definition rule_plain : option RunResult :=
  match locate with
  | inl err => Some (quiet (Failed err))
  | inr path =>
      if String.eqb (filepath_Base path) manifestName then None
      else Some (quiet (run (mkTCommand path rest input)))
  end.

(** Rule 4: manifest with an entrypoint. *)
Definition rule_entrypoint : option RunResult :=
  match locate with
  | inl err => Some (quiet (Failed err))
  | inr path =>
      match ParseCommand (filepath_Dir path) with
      | inl err => Some (quiet (Failed (Wrapped "could not parse command: " err)))
      | inr command =>
          if String.eqb (cmd_Entrypoint command) "" then None
          else Some (quiet (run (mkTCommand
                                   (filepath_Join (filepath_Dir path)
                                                  (cmd_Entrypoint command))
                                   rest input)))
      end
  end.

(** Rule 5: manifest as dispatcher, by lookup in the subcommand mapping. *)
Definition rule_dispatcher : option RunResult :=
  match locate with
  | inl err => Some (quiet (Failed err))
  | inr path =>
      match ParseCommand (filepath_Dir path) with
      | inl err => Some (quiet (Failed (Wrapped "could not parse command: " err)))
      | inr command =>
          match rest with
          | [] =>
              Some (mkRunResult
                      (["No subcommand provided"; "Subcommands:"] ++
                       List.map (fun name => "  - " +:+ name)
                                (map_to_list (cmd_SubCommands command)).*1)
                      (Failed (ExitCodeError 1)))
          | subcommand :: rest' =>
              match cmd_SubCommands command !! subcommand with
              | Some c =>
                  Some (quiet (run (mkTCommand
                                      (filepath_Join (filepath_Dir path)
                                                     (sub_Entrypoint c))
                                      rest' input)))
              | None =>
                  Some (quiet (Failed (Errorf ("subcommand not found: "
                                               +:+ subcommand))))
              end
          end
      end
  end.

Fixpoint first_match (rules : list (option RunResult)) : option RunResult :=
  match rules with
  | [] => None
  | Some r :: _ => Some r
  | None :: rules' => first_match rules'
  end.

Definition resolve : option RunResult :=
  first_match [rule_remote; rule_plain; rule_entrypoint; rule_dispatcher].

End Rules.

(** The declared type and default of a parameter are acceptable: the type
    is string or boolean and the default is nil or of that type. *)
Definition param_ok (p : Param) : bool :=
  if String.eqb (param_Type p) "string" then
    match param_Default p with AnyNil | AnyString _ => true | _ => false end
  else if String.eqb (param_Type p) "boolean" then
    match param_Default p with AnyNil | AnyBool _ => true | _ => false end
  else false.


(** Two flag values of the same type. *)
Definition same_kind (a b : FlagValue) : Prop :=
  match a, b with
  | FlagString _, FlagString _ | FlagBool _, FlagBool _ => True
  | _, _ => False
  end.

(** [values] are current values of the registered [flags]: the same
    names in the same order, each value of its flag's type. *)
Definition values_of (flags : list Flag) (values : list (string * FlagValue))
  : Prop :=
  Forall2 (fun f nv => nv.1 = flag_Name f ∧ same_kind (flag_Default f) nv.2)
          flags values.

(** A flag value of the type a parameter declares. *)
Definition typed (p : Param) (d : FlagValue) : Prop :=
  match d with
  | FlagString _ => String.eqb (param_Type p) ParamTypeString = true
  | FlagBool _ =>
      String.eqb (param_Type p) ParamTypeString = false
      ∧ String.eqb (param_Type p) ParamTypeBoolean = true
  end.

(** The name and the value a flag was registered with. *)
Definition shape (f : Flag) : string * FlagValue := (flag_Name f, flag_Default f).






End CmdSpec.

(** ** Notions about the rows of the filter command *)

Module FilterSpec.

(** [s] without its first [n] bytes. *)
Fixpoint string_drop (n : nat) (s : string) : string :=
  match n, s with
  | O, _ => s
  | S k, String _ s' => string_drop k s'
  | S _, EmptyString => EmptyString
  end.

(** The field of a row numbered [idx] from 1; there is none at 0 and past
    the last. *)
Definition field (tokens : list string) (idx : Z) : string :=
  if (idx =? 0) || (Z.of_nat (length tokens) <? idx) then ""
  else default "" (tokens !! Z.to_nat (idx - 1)).

(** The bytes Go's [unicode.IsSpace] accepts below 128. *)
Definition ascii_space (c : Ascii.ascii) : bool :=
  let n := Ascii.nat_of_ascii c in
  (n =? 32)%nat || ((9 <=? n)%nat && (n <=? 13)%nat).

Fixpoint trim_left (s : string) : string :=
  match s with
  | String c s' => if ascii_space c then trim_left s' else s
  | EmptyString => EmptyString
  end.

Fixpoint trim_right (s : string) : string :=
  match s with
  | String c s' =>
      match trim_right s' with
      | EmptyString => if ascii_space c then EmptyString else String c EmptyString
      | rest => String c rest
      end
  | EmptyString => EmptyString
  end.

Fixpoint explode_bytes (s : string) : list string :=
  match s with
  | String c s' => String c EmptyString :: explode_bytes s'
  | EmptyString => []
  end.

End FilterSpec.

(** ** Notions about the documentation page *)

Module DocSpec.
Import Cmd.

(** The text made of the given lines, each ended by a line feed. *)
Fixpoint lines_text (ls : list string) : string :=
  match ls with
  | [] => ""
  | l :: ls' => l +:+ lf +:+ lines_text ls'
  end.

(** No byte of [s] is [c]. *)
Fixpoint without (c : Ascii.ascii) (s : string) : Prop :=
  match s with
  | EmptyString => True
  | String b s' => c ≠ b ∧ without c s'
  end.

Definition LF : Ascii.ascii := Ascii.ascii_of_nat 10.

(** A line of the page: free of line feeds and of "SEE ALSO". *)
Definition plain_line (l : string) : Prop :=
  without LF l ∧ contains "SEE ALSO" l = false.

Definition group_of (command : DocCommand) : string :=
  match command with DocNode groupID _ _ => groupID end.

(** The command tree without the commands of the extension group below
    its root. *)
Fixpoint prune (command : DocCommand) : DocCommand :=
  match command with
  | DocNode groupID markdown children =>
      DocNode groupID markdown
        ((fix go (cs : list DocCommand) : list DocCommand :=
            match cs with
            | [] => []
            | child :: rest =>
                if String.eqb (group_of child) extensionGroupID then go rest
                else prune child :: go rest
            end) children)
  end.

(** The loop of [buildDoc] over the children, and the children [prune]
    keeps, as functions of their own. *)
Fixpoint childPages (cs : list DocCommand) (out : string) : error + string :=
  match cs with
  | [] => inr out
  | child :: rest =>
      match buildDoc child with
      | inl err => inl err
      | inr childPage => childPages rest (out +:+ childPage)
      end
  end.

Fixpoint prune_children (cs : list DocCommand) : list DocCommand :=
  match cs with
  | [] => []
  | child :: rest =>
      if String.eqb (group_of child) extensionGroupID then prune_children rest
      else prune child :: prune_children rest
  end.

End DocSpec.

Module Sample.
Import App Tui.

(** Pages that ignore every message, and capabilities that fail on the
    empty string only. *)
#[export] Instance host : Host := {|
  browser_OpenURL url := if String.eqb url "" then Some "no url" else None;
  clipboard_WriteAll text := if String.eqb text "" then Some "no text" else None;
  page_View ps :=
    match page_body ps with
    | Detail title content => title +:+ ": " +:+ content
    | CommandRunner _ _ _ _ => "running"
    | OtherPage _ => "page"
    end;
  page_Update _ p hp := (p, CmdNil, hp)
|}.

Definition blank (tag : nat) : PageState := mkPage (OtherPage tag) 0 0.

(** Three page objects: the root at 0 and two more. *)
Definition heap3 : Heap := <[2%nat := blank 2]> (<[1%nat := blank 1]> (<[0%nat := blank 0]> ∅)).

Definition item (id : string) : ListItem := mkListItem id id "" [] [].

Definition itemA := item "ext:A".
Definition itemB := item "ext:B".
Definition itemC := item "ext:C".
Definition itemD := item "ext:D".
Definition itemE := item "ext:E".

(** B was run at 10 and C at 20; A, D and E never. *)
Definition history_BC : History :=
  Some (<["ext:B" := 10]> (<["ext:C" := 20]> ∅)).

(** An extension with one root item and the command it starts. *)
Definition hello : Command :=
  mkCommand "hello" "Say hello" "" false "hello.sh" [] ∅.

Definition greeter : Extension :=
  mkExtension "Greeter"
    [mkRootItem "" "hello" "Hello" [("name", AnyString "world")]]
    {["hello" := hello]}.

Definition extensionMap : gmap string Extension := {["greeter" := greeter]}.

(** An operating system whose history file holds [data], with no state
    directory yet, where creating the directory and writing the file
    succeed when [healthy] and fail otherwise; the clock reads 1700000000. *)
Definition os_with (data : option FileData) (healthy : bool) : OS := {|
  os_Getenv name := if String.eqb name "HOME" then "/home/u" else "";
  os_ReadFile _ := data;
  os_Stat _ := StatNotExist;
  os_MkdirAll _ := healthy;
  os_WriteFile _ _ := healthy;
  time_Now_Unix := 1700000000
|}.

Definition world0 (history : History) : World := mkWorld history ∅ [].

(** A manifest command with two subcommands; [entry] is its entrypoint. *)
Definition tool (entry : string) : Command :=
  mkCommand "tool" "Tool" "" false entry []
    (<["build" := mkSubCommand "build.sh"]> {["test" := mkSubCommand "test.sh"]}).

(** A file system with the extension directory [/ext], its manifest
    [/ext/sunbeam.json] declaring [command], and the executable [/bin/tool];
    standard input is a terminal and every command run succeeds. *)
Definition run_env (command : Command) : Cmd.RunEnv := {|
  Cmd.stdin_IsTerminal := true;
  Cmd.stdin_ReadAll := inr "";
  Cmd.url_Parse s := inr (if String.prefix "https://" s then "https" else "");
  Cmd.http_Get _ := inr (Cmd.Response 200 "200 OK" "echo remote");
  Cmd.os_MkdirTemp := inr "/tmp/sunbeam1";
  Cmd.os_OpenFile _ := None;
  Cmd.io_Copy _ _ := None;
  Cmd.file_Close _ := None;
  Cmd.os_Stat p :=
    if String.eqb p "/ext" then inr true
    else if String.eqb p "/ext/sunbeam.json" then inr false
    else if String.eqb p "/bin/tool" then inr false
    else inl (Cmd.External "no such file or directory");
  Cmd.findRoot p :=
    if String.eqb p "/ext" then inr "/ext/sunbeam.json"
    else inl (Cmd.External "no manifest found");
  Cmd.filepath_Base p :=
    if String.eqb p "/ext/sunbeam.json" then "sunbeam.json"
    else if String.eqb p "/bin/tool" then "tool" else p;
  Cmd.filepath_Dir p :=
    if String.eqb p "/ext/sunbeam.json" then "/ext"
    else if String.eqb p "/bin/tool" then "/bin" else p;
  Cmd.filepath_Join d f := d +:+ "/" +:+ f;
  Cmd.manifestName := "sunbeam.json";
  Cmd.ParseCommand d :=
    if String.eqb d "/ext" then inr command
    else inl (Cmd.External "no manifest");
  Cmd.runCommand _ := None
|}.

(** Manifests for the command-surface builder: [sound] declares a string
    and a boolean parameter, [broken] one more command with a parameter of
    type number. *)
Definition greet : Command :=
  mkCommand "greet" "Greet" "" false ""
    [mkParam "name" "string" "who" (AnyString "world") false;
     mkParam "loud" "boolean" "shout" AnyNil true] ∅.

Definition count : Command :=
  mkCommand "count" "Count" "" false ""
    [mkParam "upto" "number" "limit" AnyNil false] ∅.

Definition sound : Cmd.Extension :=
  Cmd.mkExtension (Cmd.mkManifest "Sound" "" [greet]).

Definition broken : Cmd.Extension :=
  Cmd.mkExtension (Cmd.mkManifest "Broken" "" [greet; count]).

(** A command that declares the parameter [a] twice, and then a parameter
    of a type that is not supported. *)
Definition twice : Command :=
  mkCommand "twice" "Twice" "" false ""
    [mkParam "a" "string" "" AnyNil true;
     mkParam "a" "string" "" AnyNil true;
     mkParam "n" "number" "" AnyNil true] ∅.

Definition repeated : Cmd.Extension :=
  Cmd.mkExtension (Cmd.mkManifest "Repeated" "" [twice]).

(** Standard input holding [input], ASCII only, on a platform that is not
    Windows; no row decodes as JSON. *)
Definition filter_env (input : string) : Cmd.FilterEnv := {|
  Cmd.fe_IsTerminal := false;
  Cmd.fe_ReadAll := inr input;
  Cmd.fe_windows := false;
  Cmd.bytes_TrimSpace b := FilterSpec.trim_right (FilterSpec.trim_left b);
  Cmd.utf8_explode := FilterSpec.explode_bytes;
  Cmd.json_Unmarshal_ListItem _ := inl (Cmd.External "invalid character")
|}.

Definition tab : string := String (Ascii.ascii_of_nat 9) "".

(** What [NewCustomCmd] builds for [greet], and flag values a command line
    may leave. *)
Definition greet_sub : Cmd.SubCmd :=
  Cmd.mkSubCmd "greet" "Greet" "" false
    [Cmd.mkFlag "name" (Cmd.FlagString "world") "who" true;
     Cmd.mkFlag "loud" (Cmd.FlagBool false) "shout" false]
    greet.

Definition sound_cmd : Cmd.CustomCmd :=
  Cmd.mkCustomCmd "sound" "Sound" "" "extension" [greet_sub].

Definition greet_values : list (string * Cmd.FlagValue) :=
  [("name", Cmd.FlagString "Ada"); ("loud", Cmd.FlagBool true)].

(** A command tree: the root with a page that ends in a SEE ALSO section,
    a built-in command, and an extension command that cannot be rendered. *)
Definition doc_tree : Cmd.DocCommand :=
  Cmd.DocNode ""
    (inr ("# sunbeam" +:+ Cmd.lf +:+ "usage" +:+ Cmd.lf
          +:+ "### SEE ALSO" +:+ Cmd.lf +:+ "* sunbeam run"))
    [Cmd.DocNode "core" (inr ("## run" +:+ Cmd.lf +:+ "run it")) [];
     Cmd.DocNode "extension" (inl (Cmd.External "no page"))
       [Cmd.DocNode "" (inr "hidden") []]].

Definition doc_page : string :=
  "# sunbeam" +:+ Cmd.lf +:+ "usage" +:+ Cmd.lf
  +:+ "## run" +:+ Cmd.lf +:+ "run it" +:+ Cmd.lf.

(** An extension runner that answers with the command name. *)
Definition extension_env : Cmd.ExtensionEnv := {|
  Cmd.extension_Run _ name _ := inr name
|}.

Definition exec_env (extensions : list (string * Cmd.Extension)) : Cmd.ExecEnv := {|
  Cmd.LoadExtensions := inr extensions;
  Cmd.rootCmd_Execute _ := None
|}.

End Sample.

(* ===================================================================== *)
(** * Properties of the navigation stack                                  *)
(* ===================================================================== *)

Section NavigationStack.
Import App Tui NavSpec.
Context `{Host}.

Implicit Types (m : Model) (hp : Heap) (p : PageRef).

Lemma scan_back_cancel (newer older : list NavEvent) e p k root :
  pushed e = Some p →
  scan_back (newer ++ NavPop :: e :: older) k root
  = scan_back (newer ++ older) k root.
Proof.
  intros He. revert k. induction newer as [|x newer IH]; intros k; simpl.
  - rewrite He. reflexivity.
  - destruct (pushed x); [destruct k|]; auto.
Qed.

Lemma last_unpopped_cancel (pre rest : list NavEvent) e p root :
  pushed e = Some p →
  last_unpopped root (pre ++ e :: NavPop :: rest)
  = last_unpopped root (pre ++ rest).
Proof.
  intros He. unfold last_unpopped.
  rewrite !rev_app_distr. simpl. rewrite <- !app_assoc. simpl.
  by apply scan_back_cancel with (p := p).
Qed.

Lemma last_unpopped_pushes (pre : list NavEvent) (s : list PageRef) root :
  Forall2 (fun e p => pushed e = Some p) pre s →
  last_unpopped root pre = default root (last s).
Proof.
  intros HF. unfold last_unpopped.
  destruct s as [|p s _] using rev_ind.
  - apply Forall2_nil_inv_r in HF as ->. done.
  - apply Forall2_app_inv_r in HF as (pre1 & pre2 & _ & HF & ->).
    apply Forall2_cons_inv_r in HF as (e & pre3 & He & HF & ->).
    apply Forall2_nil_inv_r in HF as ->.
    rewrite rev_app_distr, last_snoc. simpl. by rewrite He.
Qed.

Lemma active_default m : active m = default (root m) (last (pages m)).
Proof. unfold active. by destruct (last (pages m)). Qed.

Lemma snoc_cases {A} (l : list A) : l = [] ∨ ∃ l' x, l = l' ++ [x].
Proof. destruct l as [|x l _] using rev_ind; eauto. Qed.

Lemma Pop_snoc w h r s p hid ex :
  Pop (mkModel w h r (s ++ [p]) hid ex) = mkModel w h r s hid ex.
Proof.
  unfold Pop. cbn [pages width height root hidden exit].
  rewrite length_app. simpl.
  replace (0 <? length s + 1)%nat with true by (symmetry; apply Nat.ltb_lt; lia).
  replace (length s + 1 - 1)%nat with (length s) by lia.
  by rewrite take_app_length.
Qed.

(** Running push and pop events from any stack: the active page is read
    off the events alone, [pre] being pushes that account for the pages
    already stacked. *)
Lemma run_nav (evs : list NavEvent) : ∀ m hp (pre : list NavEvent),
  Forall2 (fun e p => pushed e = Some p) pre (pages m) →
  active (run m hp (msg_of <$> evs)).1.1
    = last_unpopped (root m) (pre ++ (handled (length (pages m)) evs).1)
  ∧ (run m hp (msg_of <$> evs)).2 = (handled (length (pages m)) evs).2
  ∧ root (run m hp (msg_of <$> evs)).1.1 = root m
  ∧ hidden (run m hp (msg_of <$> evs)).1.1 = hidden m.
Proof.
  induction evs as [|e evs IH]; intros m hp pre HF.
  - simpl. rewrite app_nil_r, active_default.
    by rewrite (last_unpopped_pushes pre (pages m)).
  - destruct m as [w h r s hid ex]. cbn [pages root hidden] in *.
    destruct e as [p|p|].
    + (* PushPageMsg *)
      cbn [fmap list_fmap msg_of run Update Push pages width height root hidden exit].
      cbn [handled pushed].
      destruct (handled (S (length s)) evs) as [l q] eqn:Hh.
      specialize (IH (mkModel w h r (s ++ [p]) hid ex)
                     (page_SetSize p w (pageHeight (mkModel w h r s hid ex)) hp)
                     (pre ++ [NavPushPage p])).
      cbn [pages root hidden] in IH.
      rewrite length_app, Nat.add_1_r, Hh, <- app_assoc in IH.
      apply IH. apply Forall2_app; [done|]. by constructor.
    + (* pushMsg *)
      cbn [fmap list_fmap msg_of run Update Push pages width height root hidden exit].
      cbn [handled pushed].
      destruct (handled (S (length s)) evs) as [l q] eqn:Hh.
      specialize (IH (mkModel w h r (s ++ [p]) hid ex)
                     (page_SetSize p w (pageHeight (mkModel w h r s hid ex)) hp)
                     (pre ++ [NavPush p])).
      cbn [pages root hidden] in IH.
      rewrite length_app, Nat.add_1_r, Hh, <- app_assoc in IH.
      apply IH. apply Forall2_app; [done|]. by constructor.
    + (* popMsg *)
      destruct (snoc_cases s) as [->|(s' & p & ->)].
      * apply Forall2_nil_inv_r in HF as ->. simpl. done.
      * apply Forall2_app_inv_r in HF as (pre1 & pre2 & HF1 & HF2 & ->).
        apply Forall2_cons_inv_r in HF2 as (e & pre3 & He & HF2 & ->).
        apply Forall2_nil_inv_r in HF2 as ->.
        cbn [fmap list_fmap msg_of run Update pages].
        rewrite length_app, Nat.add_1_r. cbn [Nat.eqb handled pushed].
        rewrite Pop_snoc.
        destruct (handled (length s') evs) as [l q] eqn:Hh.
        specialize (IH (mkModel w h r s' hid ex) hp pre1 HF1).
        cbn [pages root hidden] in IH. rewrite Hh in IH.
        cbn [fst snd] in *. rewrite <- app_assoc. cbn [app].
        by rewrite (last_unpopped_cancel pre1 l e p r He).
Qed.

(** C1.  Push and pop events applied to a fresh model: after the loop has
    handled them, the active page, which is the page [View] renders, is the
    last pushed page not yet popped, or the root when every push was
    popped; the loop quits exactly when a pop arrives with nothing stacked,
    and that pop leaves the model and the pages as they were. *)
Theorem nav_active_is_last_unpopped (root0 : PageRef) (hp : Heap)
    (evs : list NavEvent) :
  let result := run (NewModel root0) hp (msg_of <$> evs) in
  let m' := result.1.1 in
  let hp' := result.1.2 in
  active m' = last_unpopped root0 (handled 0 evs).1
  ∧ View m' hp' = view_at hp' (last_unpopped root0 (handled 0 evs).1)
  ∧ result.2 = (handled 0 evs).2
  ∧ (∀ w h r hid ex hp0 rest,
       Update (mkModel w h r [] hid ex) popMsg hp0
         = (mkModel w h r [] hid ex, tea_Quit, hp0)
       ∧ run (mkModel w h r [] hid ex) hp0 (popMsg :: rest)
         = (mkModel w h r [] hid ex, hp0, true)).
Proof.
  cbn zeta.
  destruct (run_nav evs (NewModel root0) hp [] ltac:(constructor))
    as (Hact & Hq & Hroot & Hhid).
  cbn [pages NewModel length app root hidden] in *.
  split; [exact Hact|]. split; [|split; [exact Hq|]].
  - rewrite <- Hact. unfold View, active. rewrite Hhid.
    destruct (snoc_cases (pages (run (NewModel root0) hp (msg_of <$> evs)).1.1))
      as [->|(s' & p & ->)].
    + done.
    + rewrite length_app, Nat.add_1_r. cbn [Nat.ltb Nat.leb].
      rewrite last_snoc.
      replace (S (length s') - 1)%nat with (length s') by lia.
      by rewrite list_lookup_middle.
  - intros. split; reflexivity.
Qed.

(** *** Resize *)

Lemma setSize_idem w h (o : option PageState) :
  setSize w h <$> (setSize w h <$> o) = setSize w h <$> o.
Proof. by destruct o. Qed.

Lemma foldl_SetSize_lookup (l : list PageRef) w h : ∀ hp q,
  foldl (fun acc page => page_SetSize page w h acc) hp l !! q
  = if decide (q ∈ l) then setSize w h <$> hp !! q else hp !! q.
Proof.
  induction l as [|x l IH]; intros hp q; cbn [foldl].
  - destruct (decide (q ∈ [])) as [Hin|]; [by apply elem_of_nil in Hin | done].
  - rewrite IH. unfold page_SetSize. rewrite lookup_alter.
    repeat case_decide; subst;
      try (by rewrite ?setSize_idem); exfalso; set_solver.
Qed.

Lemma SetSize_lookup m w h hp q :
  q ∈ root m :: pages m →
  (SetSize m w h hp).2 !! q = setSize w h <$> hp !! q.
Proof.
  intros Hq. unfold SetSize. cbn [snd width pageHeight height root pages].
  rewrite foldl_SetSize_lookup. unfold page_SetSize. rewrite lookup_alter.
  repeat case_decide; subst;
    try (by rewrite ?setSize_idem); exfalso; set_solver.
Qed.

Lemma active_elem m : active m ∈ root m :: pages m.
Proof.
  unfold active. destruct (last (pages m)) as [p|] eqn:E.
  - right. apply last_Some in E as [l' ->]. set_solver.
  - by left.
Qed.

Lemma Pop_pages_subseteq m : pages (Pop m) ⊆ pages m.
Proof.
  unfold Pop. destruct (0 <? length (pages m))%nat; [|done].
  cbn [pages]. apply subseteq_take.
Qed.

Lemma Pop_root m : root (Pop m) = root m.
Proof. unfold Pop. by destruct (0 <? length (pages m))%nat. Qed.

(** C9.  A resize event stores the new dimensions and resizes the root and
    every stacked page, whichever is active; nothing else of the model
    changes.  The page a following pop makes active therefore already has
    the new size. *)
Theorem resize_reaches_every_page (m : Model) (hp : Heap) (w h : Z) :
  let '(m', cmd, hp') := Update m (WindowSizeMsg w h) hp in
  let '(m'', _, hp'') := Update m' popMsg hp' in
  width m' = w ∧ height m' = h
  ∧ root m' = root m ∧ pages m' = pages m
  ∧ hidden m' = hidden m ∧ exit m' = exit m
  ∧ cmd = CmdNil
  ∧ Forall (fun p => hp' !! p = setSize w h <$> hp !! p) (root m :: pages m)
  ∧ length (root m :: pages m) = S (length (pages m))
  ∧ hp'' !! active m'' = setSize w h <$> hp !! active m''.
Proof.
  cbn [Update].
  destruct (SetSize m w h hp) as [m' hp'] eqn:HS.
  assert (Hm : m' = mkModel w h (root m) (pages m) (hidden m) (exit m))
    by (unfold SetSize in HS; by inversion HS).
  assert (Hhp : ∀ q, q ∈ root m :: pages m → hp' !! q = setSize w h <$> hp !! q).
  { intros q Hq. replace hp' with (SetSize m w h hp).2 by (by rewrite HS).
    by apply SetSize_lookup. }
  subst m'. cbn [width height root pages hidden exit].
  assert (HF : Forall (fun p => hp' !! p = setSize w h <$> hp !! p)
                      (root m :: pages m))
    by (rewrite Forall_forall; intros q Hq; by apply Hhp).
  destruct (length (pages m) =? 0)%nat.
  - split_and!; try done.
    apply Hhp, (active_elem (mkModel w h (root m) (pages m) (hidden m) (exit m))).
  - split_and!; try done.
    apply Hhp.
    pose proof (active_elem (Pop (mkModel w h (root m) (pages m) (hidden m) (exit m))))
      as Ha.
    rewrite Pop_root in Ha. cbn [root] in Ha.
    apply elem_of_cons in Ha as [Ha|Ha]; [rewrite Ha; by left|].
    right. by apply (Pop_pages_subseteq _ _ Ha).
Qed.

(** *** Errors *)

(** C4.  An error event puts a new Detail page holding the error text in
    the place of the active page: on top of the stack when pages are
    stacked, as the root otherwise.  The page is a new object, every other
    page object and every other position of the stack is as before, the
    depth, the dimensions and the hidden and exit flags are unchanged, and
    the loop goes on. *)
Theorem error_replaces_active_page (m : Model) (hp : Heap) (e : string)
    (rest : list Msg) :
  let d := fresh (dom hp) in
  let '(m', cmd, hp') := Update m (errorMsg e) hp in
  hp !! d = None
  ∧ active m' = d
  ∧ hp' !! d = Some (mkPage (Detail "Error" e) (width m) (height m))
  ∧ delete d hp' = hp
  ∧ length (pages m') = length (pages m)
  ∧ take (length (pages m) - 1) (pages m') = take (length (pages m) - 1) (pages m)
  ∧ root m' = (if pages m is [] then d else root m)
  ∧ width m' = width m ∧ height m' = height m
  ∧ hidden m' = hidden m ∧ exit m' = exit m
  ∧ cmd = CmdPageInit d
  ∧ run m hp (errorMsg e :: rest) = run m' hp' rest.
Proof.
  cbn zeta. cbn [run Update NewDetail].
  set (d := fresh (dom hp)).
  assert (Hd : hp !! d = None) by (apply not_elem_of_dom, is_fresh).
  unfold viewport_SetContent, page_SetSize, pageHeight.
  split; [done|].
  destruct (snoc_cases (pages m)) as [E|(s & p & E)]; rewrite E.
  - cbn [length Nat.eqb]. unfold active. cbn [pages root width height hidden exit last].
    rewrite !lookup_alter_eq, lookup_insert_eq, !delete_alter_eq,
      delete_insert_eq, (delete_id _ _ Hd).
    repeat split; done.
  - rewrite length_app, Nat.add_1_r. cbn [Nat.eqb].
    unfold active. cbn [pages root width height hidden exit].
    replace (S (length s) - 1)%nat with (length s) by lia.
    rewrite !lookup_alter_eq, lookup_insert_eq, !delete_alter_eq,
      delete_insert_eq, (delete_id _ _ Hd).
    assert (Hins : <[length s := d]> (s ++ [p]) = s ++ [d]).
    { rewrite insert_app_r_alt by lia. by rewrite Nat.sub_diag. }
    rewrite Hins, last_snoc, !length_app, !take_app_length.
    split_and!; try done; [simpl; lia | by destruct s].
Qed.

(** *** Capabilities *)

(** C5.  An open-url or copy-text event calls its capability.  When the call
    succeeds the model becomes hidden and the loop quits, so that the render
    that follows is empty.  When it fails the model is left as it was (in
    particular not hidden), the command handed back delivers the failure as
    an error event, and the loop goes on. *)
Theorem capability_outcome (m : Model) (hp : Heap) (url text : string)
    (rest : list Msg) :
  (let '(m', cmd, hp') := Update m (OpenUrlMsg url) hp in
   match browser_OpenURL url with
   | None =>
       hidden m' = true ∧ cmd = tea_Quit ∧ View m' hp' = ""
       ∧ run m hp (OpenUrlMsg url :: rest) = (m', hp', true)
   | Some err =>
       m' = m ∧ hp' = hp ∧ cmd = CmdEmit (errorMsg err)
       ∧ run m hp (OpenUrlMsg url :: rest) = run m hp rest
   end)
  ∧
  (let '(m', cmd, hp') := Update m (CopyTextMsg text) hp in
   match clipboard_WriteAll text with
   | None =>
       hidden m' = true ∧ cmd = tea_Quit ∧ View m' hp' = ""
       ∧ run m hp (CopyTextMsg text :: rest) = (m', hp', true)
   | Some err =>
       m' = m ∧ hp' = hp
       ∧ cmd = CmdEmit (errorMsg ("failed to copy text to clipboard: " +:+ err))
       ∧ run m hp (CopyTextMsg text :: rest) = run m hp rest
   end).
Proof.
  split; cbn [run Update].
  - destruct (browser_OpenURL url); repeat split; done.
  - destruct (clipboard_WriteAll text); repeat split; done.
Qed.

End NavigationStack.

(** The reference reading on small sequences: the second push is popped,
    the first is not; a pop on the root ends the events handled. *)
Example last_unpopped_samples :
  NavSpec.last_unpopped 0%nat [NavSpec.NavPushPage 1%nat; NavSpec.NavPush 2%nat; NavSpec.NavPop]
  = 1%nat
  ∧ NavSpec.last_unpopped 0%nat [NavSpec.NavPush 1%nat; NavSpec.NavPop] = 0%nat
  ∧ NavSpec.handled 0 [NavSpec.NavPush 1%nat; NavSpec.NavPop; NavSpec.NavPop;
                       NavSpec.NavPush 2%nat]
    = ([NavSpec.NavPush 1%nat; NavSpec.NavPop], true).
Proof. split_and!; reflexivity. Qed.

(** The model on the same events, over three sample pages, after a resize
    to 80 by 24: page 1 is active and has that size, and the pop on the
    root quits with the root active. *)
Example run_samples :
  (let r := @Tui.run Sample.host (Tui.NewModel 0%nat) Sample.heap3
              [Tui.WindowSizeMsg 80 24; Tui.PushPageMsg 1%nat; Tui.pushMsg 2%nat; Tui.popMsg] in
   Tui.active r.1.1 = 1%nat
   ∧ r.1.2 !! 1%nat = Some (Tui.mkPage (Tui.OtherPage 1%nat) 80 24)
   ∧ r.2 = false)
  ∧
  (let r := @Tui.run Sample.host (Tui.NewModel 0%nat) Sample.heap3
              [Tui.pushMsg 1%nat; Tui.popMsg; Tui.popMsg; Tui.pushMsg 2%nat] in
   Tui.active r.1.1 = 0%nat ∧ Tui.pages r.1.1 = [] ∧ r.2 = true).
Proof. vm_compute. split_and!; reflexivity. Qed.

(** An error arriving over two stacked pages, on the sample heap: the new
    Detail page takes the top, page 1 stays below it. *)
Example error_sample :
  let '(m', cmd, hp') :=
    @Tui.Update Sample.host (Tui.mkModel 80 24 0%nat [1; 2]%nat false false)
                (Tui.errorMsg "exit status 1") Sample.heap3 in
  Tui.pages m' = [1; 3]%nat
  ∧ Tui.root m' = 0%nat
  ∧ hp' !! 3%nat = Some (Tui.mkPage (Tui.Detail "Error" "exit status 1") 80 24)
  ∧ @Tui.View Sample.host m' hp' = "Error: exit status 1".
Proof. vm_compute. split_and!; reflexivity. Qed.

(** The sample capabilities: opening a URL hides the model and quits;
    copying the empty text fails and comes back as an error event. *)
Example capability_samples :
  @Tui.Update Sample.host (Tui.NewModel 0%nat) (Tui.OpenUrlMsg "https://example.org") ∅
  = (Tui.mkModel 0 0 0%nat [] true false, Tui.tea_Quit, ∅)
  ∧ @Tui.Update Sample.host (Tui.NewModel 0%nat) (Tui.CopyTextMsg "") ∅
    = (Tui.NewModel 0%nat,
       Tui.CmdEmit (Tui.errorMsg "failed to copy text to clipboard: no text"), ∅).
Proof. split; reflexivity. Qed.

(* ===================================================================== *)
(** * Properties of the root list                                         *)
(* ===================================================================== *)

Section StableSort.
Import RootSpec.
Context {A : Type} (key : A → Z).

Let less (x y : A) : bool := key x >? key y.

Lemma with_key_nil t : with_key key t [] = [].
Proof. done. Qed.

Lemma with_key_cons t x (l : list A) :
  with_key key t (x :: l)
  = if decide (key x = t) then x :: with_key key t l else with_key key t l.
Proof. reflexivity. Qed.

Lemma with_key_app t (l1 l2 : list A) :
  with_key key t (l1 ++ l2) = with_key key t l1 ++ with_key key t l2.
Proof.
  induction l1 as [|x l1 IH]; [done|].
  rewrite <- app_comm_cons, !with_key_cons, IH.
  by destruct (decide (key x = t)).
Qed.

Lemma with_key_elem t x (l : list A) :
  x ∈ with_key key t l ↔ key x = t ∧ x ∈ l.
Proof.
  induction l as [|y l IH].
  - rewrite with_key_nil. split.
    + intros Hin. by apply elem_of_nil in Hin.
    + intros [_ Hin]. by apply elem_of_nil in Hin.
  - rewrite with_key_cons. destruct (decide (key y = t)) as [Hy|Hy].
    + rewrite !elem_of_cons, IH. naive_solver.
    + rewrite elem_of_cons, IH. naive_solver.
Qed.

Lemma with_key_none t (l : list A) :
  Forall (fun a => key a ≠ t) l → with_key key t l = [].
Proof.
  induction 1 as [|y l Hy _ IH]; [done|].
  rewrite with_key_cons. by rewrite decide_False.
Qed.

Lemma stable_insert_perm x (l : list A) :
  Permutation (Tui.stable_insert less x l) (x :: l).
Proof.
  induction l as [|y l IH]; simpl; [done|].
  destruct (less x y); [done|].
  rewrite IH. apply perm_swap.
Qed.

Lemma stable_insert_ranked x (l : list A) :
  ranked key l → ranked key (Tui.stable_insert less x l).
Proof.
  unfold ranked. induction 1 as [|y l Hl IH Hy]; simpl.
  - repeat constructor.
  - destruct (less x y) eqn:E; unfold less in E.
    + constructor; [by constructor|].
      constructor; [lia|].
      eapply Forall_impl; [exact Hy|]. simpl. intros; lia.
    + constructor; [done|].
      rewrite (stable_insert_perm x l). constructor; [lia|done].
Qed.

(** Inserting into a ranked list puts the new element behind every element
    of the same key. *)
Lemma stable_insert_with_key x t (l : list A) :
  ranked key l →
  with_key key t (Tui.stable_insert less x l)
  = with_key key t l ++ with_key key t [x].
Proof.
  unfold ranked. induction 1 as [|y l Hl IH Hy]; cbn [Tui.stable_insert]; [done|].
  destruct (less x y) eqn:E; unfold less in E.
  - rewrite (with_key_cons t x (y :: l)), (with_key_cons t x []), with_key_nil.
    destruct (decide (key x = t)) as [Hx|Hx]; [|by rewrite app_nil_r].
    rewrite (with_key_none t (y :: l)); [done|].
    constructor; [lia|].
    eapply Forall_impl; [exact Hy|]. simpl. intros; lia.
  - rewrite !(with_key_cons t y), IH.
    by destruct (decide (key y = t)).
Qed.

Lemma foldl_insert_facts (l : list A) : ∀ acc,
  ranked key acc →
  ranked key (foldl (fun acc x => Tui.stable_insert less x acc) acc l)
  ∧ Permutation (foldl (fun acc x => Tui.stable_insert less x acc) acc l) (acc ++ l)
  ∧ ∀ t, with_key key t (foldl (fun acc x => Tui.stable_insert less x acc) acc l)
         = with_key key t acc ++ with_key key t l.
Proof.
  induction l as [|x l IH]; intros acc Hacc; cbn [foldl].
  - split_and!; [done|by rewrite app_nil_r|].
    intros t. by rewrite with_key_nil, app_nil_r.
  - destruct (IH (Tui.stable_insert less x acc)) as (Hr & Hp & Hk);
      [by apply stable_insert_ranked|].
    split_and!; [done| |].
    + rewrite Hp, stable_insert_perm. apply Permutation_middle.
    + intros t. rewrite Hk, stable_insert_with_key by done.
      rewrite <- app_assoc. f_equal.
      by rewrite <- with_key_app.
Qed.

Lemma stable_sort_ranked (l : list A) : ranked key (Tui.stable_sort less l).
Proof. apply foldl_insert_facts. constructor. Qed.

Lemma stable_sort_perm (l : list A) : Permutation (Tui.stable_sort less l) l.
Proof. apply (foldl_insert_facts l []). constructor. Qed.

Lemma stable_sort_with_key (l : list A) t :
  with_key key t (Tui.stable_sort less l) = with_key key t l.
Proof.
  unfold Tui.stable_sort.
  destruct (foldl_insert_facts l []) as (_ & _ & Hk); [constructor|].
  by rewrite Hk.
Qed.

(** Two ranked lists that hold, for every key, the same elements in the
    same order are the same list: ranking and stability leave no choice. *)
Lemma ranked_stable_unique (l1 : list A) : ∀ l2,
  ranked key l1 → ranked key l2 →
  (∀ t, with_key key t l1 = with_key key t l2) →
  l1 = l2.
Proof.
  unfold ranked.
  induction l1 as [|x l1 IH]; intros l2 H1 H2 Hk.
  - destruct l2 as [|y l2]; [done|].
    specialize (Hk (key y)). rewrite with_key_nil, with_key_cons in Hk.
    by rewrite decide_True in Hk.
  - apply StronglySorted_inv in H1 as [H1 Hx].
    destruct l2 as [|y l2].
    { specialize (Hk (key x)). rewrite with_key_nil, with_key_cons in Hk.
      by rewrite decide_True in Hk. }
    apply StronglySorted_inv in H2 as [H2 Hy].
    assert (Hxy : key x = key y).
    { assert (key y <= key x).
      { pose proof (Hk (key y)) as Hky.
        rewrite (with_key_cons _ y), decide_True in Hky by done.
        assert (Hin : y ∈ with_key key (key y) (x :: l1))
          by (rewrite Hky; by left).
        apply with_key_elem in Hin as [_ Hin].
        apply elem_of_cons in Hin as [->|Hin]; [lia|].
        rewrite Forall_forall in Hx. by apply Hx. }
      assert (key x <= key y).
      { pose proof (Hk (key x)) as Hkx.
        rewrite (with_key_cons _ x), decide_True in Hkx by done.
        assert (Hin : x ∈ with_key key (key x) (y :: l2))
          by (rewrite <- Hkx; by left).
        apply with_key_elem in Hin as [_ Hin].
        apply elem_of_cons in Hin as [->|Hin]; [lia|].
        rewrite Forall_forall in Hy. by apply Hy. }
      lia. }
    pose proof (Hk (key x)) as Hhead.
    rewrite (with_key_cons _ x), (with_key_cons _ y) in Hhead.
    rewrite decide_True in Hhead by done.
    rewrite decide_True in Hhead by done.
    injection Hhead as -> Htail.
    f_equal. apply IH; [done..|].
    intros t. specialize (Hk t). rewrite !(with_key_cons _ y) in Hk.
    destruct (decide (key y = t)); [by injection Hk|done].
Qed.

End StableSort.

Section RootListOrder.
Import App Tui RootSpec.

Lemma Less_timestamp (history : History) (i j : ListItem) :
  Less history i j = (timestamp history i >? timestamp history j).
Proof.
  unfold Less, timestamp, map_index.
  destruct history as [tbl|]; [|done].
  by destruct (tbl !! ID i), (tbl !! ID j).
Qed.

Lemma stable_insert_ext {A} (f g : A → A → bool) x (l : list A) :
  (∀ a b, f a b = g a b) → stable_insert f x l = stable_insert g x l.
Proof.
  intros Hfg. induction l as [|y l IH]; simpl; [done|].
  by rewrite Hfg, IH.
Qed.

Lemma stable_sort_ext {A} (f g : A → A → bool) (l : list A) :
  (∀ a b, f a b = g a b) → stable_sort f l = stable_sort g l.
Proof.
  intros Hfg. unfold stable_sort. generalize (@nil A) as acc.
  induction l as [|x l IH]; intros acc; simpl; [done|].
  by rewrite IH, (stable_insert_ext f g).
Qed.

(** C7.  The comparator the root list installs holds of two items exactly
    when the first has the larger last-run timestamp, an item absent from
    the history counting as 0.  Sorting stably under it ranks the items by
    descending timestamp, keeps every item, and keeps the items of each
    timestamp in their original order; it is the only list that does.  With
    A never run, B run at 10 and C at 20 the order is C, B, A, and the
    never-run D, E stay D, E. *)
Theorem history_order_is_stable (history : History) (items : list ListItem)
    (i j : ListItem) (t : Z) :
  Less history i j = (timestamp history i >? timestamp history j)
  ∧ (Less history i j = true ↔ timestamp history i > timestamp history j)
  ∧ ranked (timestamp history) (stable_sort (Less history) items)
  ∧ Permutation (stable_sort (Less history) items) items
  ∧ with_key (timestamp history) t (stable_sort (Less history) items)
    = with_key (timestamp history) t items
  ∧ (∀ l', ranked (timestamp history) l' →
           (∀ t', with_key (timestamp history) t' l'
                  = with_key (timestamp history) t' items) →
           l' = stable_sort (Less history) items)
  ∧ stable_sort (Less Sample.history_BC) [Sample.itemA; Sample.itemB; Sample.itemC]
    = [Sample.itemC; Sample.itemB; Sample.itemA]
  ∧ stable_sort (Less Sample.history_BC) [Sample.itemD; Sample.itemE]
    = [Sample.itemD; Sample.itemE].
Proof.
  assert (Hs : stable_sort (Less history) items
               = stable_sort (fun a b => timestamp history a >? timestamp history b) items)
    by (apply stable_sort_ext, Less_timestamp).
  rewrite Hs.
  split_and!.
  - apply Less_timestamp.
  - rewrite Less_timestamp. split; intros Hgt.
    + apply Z.gtb_lt in Hgt. lia.
    + apply Z.gtb_lt. lia.
  - apply stable_sort_ranked.
  - apply stable_sort_perm.
  - apply stable_sort_with_key.
  - intros l' Hr Hk. apply (ranked_stable_unique (timestamp history)).
    + done.
    + apply stable_sort_ranked.
    + intros t'. by rewrite Hk, stable_sort_with_key.
  - vm_compute. reflexivity.
  - vm_compute. reflexivity.
Qed.

End RootListOrder.

Section RunAction.
Import App Tui RootSpec.

(** X1.  With a history that is a table, the run action records the time
    under the item's id, looks at the state directory and creates it when it
    does not exist, writes the whole updated table to the history file, and
    returns the push of a new command runner bound to the item's extension,
    command and parameters, in this order and whatever the directory
    creation and the write answer. *)
Theorem run_action_on_table `{OS} (stateDir historyPath : string)
    (rootItem : RootItemWithID) (extension : Extension)
    (tbl : gmap string Z) (hp : Heap) (tr : list Effect) :
  runAction (RunCommandCmd stateDir historyPath rootItem extension)
            (mkWorld (Some tbl) hp tr)
  = Returned (PushPageMsg (fresh (dom hp)))
             (after_run stateDir historyPath rootItem extension tbl hp tr).
Proof.
  unfold runAction, runCommandCmd, after_run.
  unfold mbind, mret, IO_bind, IO_ret, io_bind, io_ret, history_assign,
    io_Stat, io_MkdirAll, io_WriteFile, read_history, emit, NewCommandRunner.
  cbn [w_history w_heap w_trace].
  unfold mbind, mret, IO_bind, IO_ret, io_bind, io_ret, emit.
  cbn [w_history w_heap w_trace].
  destruct (os_IsNotExist (os_Stat stateDir));
    cbn [w_history w_heap w_trace json_Marshal];
    unfold mbind, mret, IO_bind, IO_ret, io_bind, io_ret, emit;
    cbn [w_history w_heap w_trace json_Marshal];
    rewrite <- ?app_assoc; reflexivity.
Qed.

(** With the nil history the run action panics at the assignment and does
    nothing else. *)
Lemma run_action_on_nil `{OS} (stateDir historyPath : string)
    (rootItem : RootItemWithID) (extension : Extension)
    (hp : Heap) (tr : list Effect) :
  runAction (RunCommandCmd stateDir historyPath rootItem extension)
            (mkWorld None hp tr)
  = Panicked "assignment to entry in nil map" (mkWorld None hp tr).
Proof. reflexivity. Qed.

(** X2.  A history file holding the JSON value [null] loads as the nil map;
    any other content, and an unreadable file, loads as a table, the empty
    one when nothing could be read or decoded. *)
Theorem loadHistory_cases `{OS} (historyPath : string) :
  match os_ReadFile historyPath with
  | Some JSONNull => loadHistory historyPath = None
  | Some NotJSON | None => loadHistory historyPath = Some ∅
  | Some (JSONEntries entries) => ∃ tbl, loadHistory historyPath = Some tbl
  end.
Proof.
  unfold loadHistory. destruct (os_ReadFile historyPath) as [[| |entries]|]; eauto.
Qed.

(** C8, at the failing input.  The history file holds [null]: the root
    list is built with the nil history, and the run action of its item
    panics instead of returning the push-page event; nothing is recorded,
    created or written. *)
Theorem run_action_panics_on_null_history :
  let os := Sample.os_with (Some JSONNull) true in
  let l := @NewRootList os Sample.extensionMap [] in
  rl_history l = None
  ∧ List.map (fun it =>
         List.map (fun a => @runAction os (act_Cmd a) (Sample.world0 (rl_history l)))
             (li_Actions it))
      (rl_items l)
    = [[Panicked "assignment to entry in nil map" (Sample.world0 None)]].
Proof. vm_compute. split; reflexivity. Qed.

End RunAction.

(** The run action on the sample root list when the history file is missing
    and neither the directory nor the file can be written: the time is
    recorded, the four steps are attempted in order, and the push of the
    command runner is returned all the same. *)
Example run_action_sample :
  let os := Sample.os_with None false in
  let l := @Tui.NewRootList os Sample.extensionMap [] in
  Tui.rl_history l = Some ∅
  ∧ List.map (fun it =>
         List.map (fun a =>
                match @Tui.runAction os (Tui.act_Cmd a) (Sample.world0 (Tui.rl_history l)) with
                | Tui.Returned msg w => Some (msg, Tui.w_history w, Tui.w_trace w)
                | Tui.Panicked _ _ => None
                end)
             (Tui.li_Actions it))
      (Tui.rl_items l)
    = [[Some (Tui.PushPageMsg 0%nat,
              Some {["greeter:Hello" := 1700000000]},
              [Tui.EffAssign "greeter:Hello" 1700000000;
               Tui.EffStat "/home/u/.local/state/sunbeam";
               Tui.EffMkdirAll "/home/u/.local/state/sunbeam" 493;
               Tui.EffWriteFile "/home/u/.local/state/sunbeam/history.json"
                 (Tui.JSONEntries [("greeter:Hello", 1700000000)]) 420])]].
Proof. vm_compute. split; reflexivity. Qed.

(* ===================================================================== *)
(** * Properties of the filter command's field accessor                   *)
(* ===================================================================== *)

Section SafeGet.
Import Cmd.

Lemma int_wrap_id (z : Z) : int_min <= z <= int_max → int_wrap z = z.
Proof.
  unfold int_wrap, int_min, int_max. intros Hz.
  rewrite Z.mod_small; lia.
Qed.

Lemma int_wrap_underflow : int_wrap (int_min - 1) = int_max.
Proof. reflexivity. Qed.

Lemma index_in_range (tokens : list string) (i : Z) :
  0 <= i < Z.of_nat (length tokens) →
  ∃ s, tokens !! Z.to_nat i = Some s ∧ index tokens i = Val s.
Proof.
  intros Hi. unfold index.
  destruct (tokens !! Z.to_nat i) as [s|] eqn:E.
  - exists s. split; [done|].
    replace (i <? 0) with false by (symmetry; apply Z.ltb_ge; lia).
    replace (Z.of_nat (length tokens) <=? i) with false
      by (symmetry; apply Z.leb_gt; lia).
    done.
  - apply lookup_ge_None in E. lia.
Qed.

Lemma index_out_of_range (tokens : list string) (i : Z) :
  i < 0 ∨ Z.of_nat (length tokens) <= i →
  index tokens i = Panic "index out of range".
Proof.
  intros Hi. unfold index.
  destruct (i <? 0) eqn:E1; [done|].
  destruct (Z.of_nat (length tokens) <=? i) eqn:E2; [done|].
  apply Z.ltb_ge in E1. apply Z.leb_gt in E2. lia.
Qed.

(** X3.  From index 0 upwards [safeGet] returns: the empty string at 0 and
    past the end, the token numbered from 1 in between. *)
Theorem safeGet_from_zero (tokens : list string) (idx : Z) :
  0 <= idx <= int_max →
  safeGet tokens idx
  = Val (if (idx =? 0) || (Z.of_nat (length tokens) <? idx) then ""
         else default "" (tokens !! Z.to_nat (idx - 1))).
Proof.
  intros Hidx. unfold safeGet.
  destruct (idx =? 0) eqn:E0; [done|]. apply Z.eqb_neq in E0.
  rewrite Z.gtb_ltb.
  destruct (Z.of_nat (length tokens) <? idx) eqn:E1; [done|].
  apply Z.ltb_ge in E1. cbn [orb].
  rewrite int_wrap_id by (unfold int_min, int_max in *; lia).
  destruct (index_in_range tokens (idx - 1)) as (s & Hs & ->); [lia|].
  by rewrite Hs.
Qed.

(** X4.  Below 0 [safeGet] panics: the index handed to the slice is
    negative, or, at the least [int], wraps around to the greatest. *)
Theorem safeGet_negative (tokens : list string) (idx : Z) :
  int_min <= idx < 0 →
  Z.of_nat (length tokens) <= int_max →
  safeGet tokens idx = Panic "index out of range".
Proof.
  intros Hidx Hlen. unfold safeGet.
  replace (idx =? 0) with false by (symmetry; apply Z.eqb_neq; lia).
  replace (idx >? Z.of_nat (length tokens)) with false
    by (symmetry; rewrite Z.gtb_ltb; apply Z.ltb_ge; lia).
  apply index_out_of_range.
  destruct (decide (idx = int_min)) as [->|Hne].
  - right. rewrite int_wrap_underflow. lia.
  - left. rewrite int_wrap_id; unfold int_min, int_max in *; lia.
Qed.

(** C10, at the failing input.  With the two tokens a and b, [safeGet] at
    index -1 indexes the slice at -2 and panics, and so does the row loop
    when [--with-nth] is 1,-1. *)
Theorem safeGet_panics_on_negative_index :
  safeGet ["a"; "b"] (-1) = Panic "index out of range"
  ∧ int_wrap (-1 - 1) = -2
  ∧ withNth ["a"; "b"] [1; -1] = Panic "index out of range"
  ∧ safeGet ["a"; "b"] 0 = Val ""
  ∧ safeGet ["a"; "b"] 2 = Val "b"
  ∧ safeGet ["a"; "b"] 3 = Val "".
Proof. vm_compute. split_and!; reflexivity. Qed.

End SafeGet.

Lemma safeGet_from_zero_witness :
  Cmd.safeGet ["a"; "b"; "c"] 2
  = Cmd.Val (if (2 =? 0) || (Z.of_nat (length ["a"; "b"; "c"]) <? 2) then ""
             else default "" (["a"; "b"; "c"] !! Z.to_nat (2 - 1))).
Proof.
  apply (safeGet_from_zero ["a"; "b"; "c"] 2).
  unfold Cmd.int_max. lia.
Defined.

Lemma safeGet_negative_witness :
  Cmd.safeGet ["a"; "b"; "c"] (-3) = Cmd.Panic "index out of range".
Proof.
  apply (safeGet_negative ["a"; "b"; "c"] (-3)).
  - unfold Cmd.int_min. lia.
  - unfold Cmd.int_max. simpl. lia.
Defined.

(* ===================================================================== *)
(** * Properties of the command-surface builder                           *)
(* ===================================================================== *)

Section CustomCmd.
Import App Cmd CmdSpec.

Lemma defined_elem (name : string) (flags : list Flag) :
  defined name flags = true ↔ name ∈ List.map flag_Name flags.
Proof.
  unfold defined. induction flags as [|f flags IH]; cbn [existsb List.map].
  - split; [done|]. intros Hin. by apply elem_of_nil in Hin.
  - rewrite orb_true_iff, IH, elem_of_cons, String.eqb_eq. naive_solver.
Qed.




(** A parameter whose name is registered already is refused with an error
    when it is not acceptable, and makes the flag library panic when it
    is. *)
Lemma addParam_repeated (argument : Param) (flags : list Flag) :
  param_ok argument = true →
  param_Name argument ∈ List.map flag_Name flags →
  addParam argument flags = Panic ("flag redefined: " +:+ param_Name argument).
Proof.
  intros Hok Hin. apply defined_elem in Hin. revert Hok.
  unfold param_ok, addParam, AddFlag, ParamTypeString, ParamTypeBoolean.
  cbn [flag_Name]. rewrite Hin.
  destruct (String.eqb (param_Type argument) "string").
  - by destruct (param_Default argument).
  - destruct (String.eqb (param_Type argument) "boolean"); [|done].
    by destruct (param_Default argument).
Qed.















End CustomCmd.




(** The builder on the sample manifests: an error for the parameter of
    type number, and a panic when the name [a] is registered a second time,
    before the parameter of type number is looked at. *)
Example NewCustomCmd_samples :
  Cmd.NewCustomCmd "broken" Sample.broken
  = Cmd.Val (inl (Cmd.UnsupportedType "number"))
  ∧ Cmd.NewCustomCmd "repeated" Sample.repeated = Cmd.Panic "flag redefined: a"
  ∧ @Cmd.Execute (Sample.exec_env [("repeated", Sample.repeated)])
    = Cmd.Panic "flag redefined: a".
Proof. vm_compute. split_and!; reflexivity. Qed.

(** C6, counterexample.  The manifest [Sample.repeated] has a parameter of
    type number, yet building its command returns no error: the flag
    library panics at the second parameter named [a], and so does
    [Execute]. *)
Lemma bad_param_may_panic :
  (∃ command param,
     command ∈ Cmd.mf_Commands (Cmd.ext_Manifest Sample.repeated)
     ∧ param ∈ App.cmd_Params command
     ∧ CmdSpec.param_ok param = false)
  ∧ ¬ (∃ err, Cmd.NewCustomCmd "repeated" Sample.repeated = Cmd.Val (inl err))
  ∧ ¬ (∃ err, @Cmd.Execute (Sample.exec_env [("repeated", Sample.repeated)])
              = Cmd.Val (Cmd.Aborted err)).
Proof.
  split_and!.
  - exists Sample.twice, (App.mkParam "n" "number" "" App.AnyNil true).
    split_and!; [|  |reflexivity].
    + apply elem_of_cons. left. reflexivity.
    + apply elem_of_cons. right. apply elem_of_cons. right.
      apply elem_of_cons. left. reflexivity.
  - intros [err Herr]. vm_compute in Herr. discriminate Herr.
  - intros [err Herr]. vm_compute in Herr. discriminate Herr.
Qed.

(* ===================================================================== *)
(** * Properties of the command resolver                                  *)
(* ===================================================================== *)

Section Resolver.
Import App Cmd CmdSpec.
Context `{RunEnv}.

(** The loop over the subcommand map finds what the map holds at the key. *)
Lemma findSubCommand_list (entries : list (string * SubCommand)) (k : string) :
  findSubCommand entries k = (list_to_map entries : gmap string SubCommand) !! k.
Proof.
  induction entries as [|[name c] entries IH]; [done|].
  cbn [findSubCommand list_to_map foldr].
  destruct (String.eqb_spec k name) as [->|Hne]; cbn [negb].
  - by rewrite lookup_insert_eq.
  - by rewrite lookup_insert_ne.
Qed.

Lemma findSubCommand_lookup (subs : gmap string SubCommand) (k : string) :
  findSubCommand (map_to_list subs) k = subs !! k.
Proof. by rewrite findSubCommand_list, list_to_map_to_list. Qed.

Lemma subcommand_lines (subs : gmap string SubCommand) :
  List.map (fun '(name, _) => "  - " +:+ name) (map_to_list subs)
  = List.map (fun name => "  - " +:+ name) (map_to_list subs).*1.
Proof.
  induction (map_to_list subs) as [|[name c] l IH]; [done|].
  cbn. by rewrite IH.
Qed.

Lemma subcommand_names (subs : gmap string SubCommand) (name : string) :
  name ∈ (map_to_list subs).*1 ↔ is_Some (subs !! name).
Proof.
  rewrite list_elem_of_fmap. split.
  - intros ([k c] & -> & Hin). apply elem_of_map_to_list in Hin. by exists c.
  - intros [c Hc]. exists (name, c). split; [done|]. by apply elem_of_map_to_list.
Qed.

Lemma NewRunCmd_RunE (origin : string) (rest : list string) :
  NewRunCmd (origin :: rest) = RunE (origin :: rest).
Proof. reflexivity. Qed.

Lemma runLocal_locate (origin : string) (rest : list string) (input : string) :
  runLocal (origin :: rest) origin input
  = match locate origin with
    | inl err => quiet (Failed err)
    | inr path =>
        if negb (String.eqb (filepath_Base path) manifestName) then
          quiet (run (mkTCommand path rest input))
        else
          match ParseCommand (filepath_Dir path) with
          | inl err => quiet (Failed (Wrapped "could not parse command: " err))
          | inr command =>
              if negb (String.eqb (cmd_Entrypoint command) "") then
                quiet (run (mkTCommand
                              (filepath_Join (filepath_Dir path)
                                             (cmd_Entrypoint command))
                              rest input))
              else dispatch path command (origin :: rest) input
          end
    end.
Proof.
  unfold runLocal, locate. destruct (os_Stat origin) as [err|[|]]; try done.
Qed.

Lemma dispatch_rule (origin path : string) (command : Command)
    (rest : list string) (input : string) :
  locate origin = inr path →
  ParseCommand (filepath_Dir path) = inr command →
  Some (dispatch path command (origin :: rest) input)
  = rule_dispatcher origin rest input.
Proof.
  intros Hl Hp. unfold rule_dispatcher, dispatch. rewrite Hl, Hp.
  destruct rest as [|subcommand rest']; cbn [length Nat.ltb Nat.leb].
  - by rewrite subcommand_lines.
  - cbn [lookup list_lookup drop]. rewrite findSubCommand_lookup.
    by destruct (cmd_SubCommands command !! subcommand).
Qed.

(** The code follows the ordered rules. *)
Lemma RunE_resolve (origin : string) (rest : list string) (input : string) :
  stdin_input = inr input →
  Some (RunE (origin :: rest)) = resolve origin rest input.
Proof.
  intros Hin. unfold RunE. rewrite Hin.
  unfold resolve, rule_remote. cbn [drop].
  destruct (isHttps origin); [done|]. cbn [first_match].
  rewrite runLocal_locate. unfold rule_plain, rule_entrypoint.
  destruct (locate origin) as [err|path] eqn:Hl; [done|].
  destruct (String.eqb (filepath_Base path) manifestName); [|done].
  cbn [negb first_match].
  destruct (ParseCommand (filepath_Dir path)) as [err|command] eqn:Hp; [done|].
  destruct (String.eqb (cmd_Entrypoint command) ""); [|done].
  cbn [negb first_match].
  rewrite (dispatch_rule origin path command rest input Hl Hp).
  by destruct (rule_dispatcher origin rest input).
Qed.

(** C2.  Resolution is the first of the rules remote, plain executable,
    manifest entrypoint, dispatcher that answers, a directory standing for
    the manifest found in it.  In particular a manifest command with a
    non-empty entrypoint is run through that entrypoint, joined to the
    manifest's directory, with the trailing arguments and the input; the
    result does not depend on the subcommands the command declares. *)
Theorem resolver_precedence (origin : string) (rest : list string)
    (input : string) :
  stdin_input = inr input →
  Some (NewRunCmd (origin :: rest)) = resolve origin rest input
  ∧ ∀ path command,
      isHttps origin = false →
      locate origin = inr path →
      filepath_Base path = manifestName →
      ParseCommand (filepath_Dir path) = inr command →
      cmd_Entrypoint command ≠ "" →
      NewRunCmd (origin :: rest)
      = quiet (run (mkTCommand
                      (filepath_Join (filepath_Dir path) (cmd_Entrypoint command))
                      rest input)).
Proof.
  intros Hin. rewrite NewRunCmd_RunE. split; [by apply RunE_resolve|].
  intros path command Hs Hl Hb Hp He.
  apply (inj Some). rewrite (RunE_resolve origin rest input Hin).
  unfold resolve, rule_remote, rule_plain, rule_entrypoint.
  rewrite Hs, Hl, Hb, Hp. rewrite String.eqb_refl.
  apply String.eqb_neq in He. by rewrite He.
Qed.

(** C3.  At the dispatcher rule: with no argument left, the resolver prints
    the heading and one line per subcommand name, each name once, and fails
    with the exit-code error 1; with an argument, it looks the argument up
    in the subcommand mapping, fails with an ordinary error when it is not
    a key, and otherwise runs that subcommand's entrypoint, joined to the
    manifest's directory, with the arguments after the name and the
    input. *)
Theorem dispatcher_behaviour (origin : string) (rest : list string)
    (input path : string) (command : Command) :
  stdin_input = inr input →
  isHttps origin = false →
  locate origin = inr path →
  filepath_Base path = manifestName →
  ParseCommand (filepath_Dir path) = inr command →
  cmd_Entrypoint command = "" →
  match rest with
  | [] =>
      NewRunCmd [origin]
      = mkRunResult
          (["No subcommand provided"; "Subcommands:"] ++
           List.map (fun name => "  - " +:+ name)
                    (map_to_list (cmd_SubCommands command)).*1)
          (Failed (ExitCodeError 1))
      ∧ NoDup (map_to_list (cmd_SubCommands command)).*1
      ∧ ∀ name, name ∈ (map_to_list (cmd_SubCommands command)).*1
                ↔ is_Some (cmd_SubCommands command !! name)
  | subcommand :: rest' =>
      NewRunCmd (origin :: subcommand :: rest')
      = match cmd_SubCommands command !! subcommand with
        | Some c =>
            quiet (run (mkTCommand
                          (filepath_Join (filepath_Dir path) (sub_Entrypoint c))
                          rest' input))
        | None =>
            quiet (Failed (Errorf ("subcommand not found: " +:+ subcommand)))
        end
  end.
Proof.
  intros Hin Hs Hl Hb Hp He.
  assert (Hr : Some (NewRunCmd (origin :: rest)) = rule_dispatcher origin rest input).
  { rewrite NewRunCmd_RunE, (RunE_resolve origin rest input Hin).
    unfold resolve, rule_remote, rule_plain, rule_entrypoint.
    rewrite Hs, Hl, Hb, Hp, He. rewrite String.eqb_refl. cbn.
    by destruct (rule_dispatcher origin rest input) eqn:E. }
  unfold rule_dispatcher in Hr. rewrite Hl, Hp in Hr.
  destruct rest as [|subcommand rest'].
  - split_and!.
    + by injection Hr.
    + apply NoDup_fst_map_to_list.
    + apply subcommand_names.
  - destruct (cmd_SubCommands command !! subcommand); by injection Hr.
Qed.

End Resolver.

Lemma resolver_precedence_witness :
  @Cmd.NewRunCmd (Sample.run_env (Sample.tool "main.sh")) ["/ext"; "build"; "x"]
  = Cmd.quiet (Cmd.Ran (Cmd.mkTCommand "/ext/main.sh" ["build"; "x"] "") None).
Proof.
  apply (proj2 (@resolver_precedence (Sample.run_env (Sample.tool "main.sh"))
                  "/ext" ["build"; "x"] "" eq_refl)
               "/ext/sunbeam.json" (Sample.tool "main.sh")).
  - reflexivity.
  - reflexivity.
  - reflexivity.
  - reflexivity.
  - discriminate.
Defined.

Lemma dispatcher_behaviour_witness :
  @Cmd.NewRunCmd (Sample.run_env (Sample.tool "")) ["/ext"; "build"; "x"]
  = Cmd.quiet (Cmd.Ran (Cmd.mkTCommand "/ext/build.sh" ["x"] "") None).
Proof.
  apply (@dispatcher_behaviour (Sample.run_env (Sample.tool ""))
           "/ext" ["build"; "x"] "" "/ext/sunbeam.json" (Sample.tool ""));
    reflexivity.
Defined.

(** The dispatcher of the sample manifest without an argument, and with a
    name that is no subcommand. *)
Example dispatcher_usage_error :
  @Cmd.NewRunCmd (Sample.run_env (Sample.tool "")) ["/ext"]
  = Cmd.mkRunResult ["No subcommand provided"; "Subcommands:";
                     "  - build"; "  - test"]
                    (Cmd.Failed (Cmd.ExitCodeError 1))
  ∧ @Cmd.NewRunCmd (Sample.run_env (Sample.tool "")) ["/ext"; "Build"]
    = Cmd.quiet (Cmd.Failed (Cmd.Errorf "subcommand not found: Build")).
Proof. vm_compute. split; reflexivity. Qed.

(* ===================================================================== *)
(** * Further properties of the navigation stack                          *)
(* ===================================================================== *)

Section ModelMessages.
Import App Tui StackSpec.
Context `{Host}.

Implicit Types (m : Model) (hp : Heap) (p : PageRef).

Lemma updateCurrent_flags m msg hp :
  hidden (updateCurrent m msg hp).1.1 = hidden m
  ∧ exit (updateCurrent m msg hp).1.1 = exit m.
Proof.
  unfold updateCurrent. destruct (length (pages m) =? 0)%nat.
  - by destruct (page_Update msg (root m) hp) as [[p c] hp1].
  - destruct (pages m !! (length (pages m) - 1)%nat) as [cur|]; [|done].
    by destruct (page_Update msg cur hp) as [[p c] hp1].
Qed.

(** One message never clears [hidden] or [exit], and sets [exit] only
    together with [hidden] and only for the interrupt key. *)
Lemma Update_flags m msg hp :
  let m' := (Update m msg hp).1.1 in
  (hidden m = true → hidden m' = true)
  ∧ (exit m = true → exit m' = true)
  ∧ (exit m' = true → exit m = true ∨ (hidden m' = true ∧ msg = KeyMsg KeyCtrlC)).
Proof.
  destruct (updateCurrent_flags m msg hp) as [Hh He].
  destruct msg as [[| |code]|w h|url|text|page|container| |e| |tag];
    cbn [Update]; rewrite ?Hh, ?He; cbn [fst hidden exit]; try by eauto.
  - destruct (browser_OpenURL url); cbn [fst hidden exit]; eauto.
  - destruct (clipboard_WriteAll text); cbn [fst hidden exit]; eauto.
  - destruct (length (pages m) =? 0)%nat; cbn [fst hidden exit]; [eauto|].
    unfold Pop. destruct (0 <? length (pages m))%nat; cbn [hidden exit]; eauto.
  - destruct (length (pages m) =? 0)%nat; cbn [fst hidden exit]; eauto.
Qed.

Lemma run_flags (msgs : list Msg) : ∀ m hp,
  let m' := (run m hp msgs).1.1 in
  (hidden m = true → hidden m' = true)
  ∧ (exit m = true → exit m' = true)
  ∧ (exit m' = true →
     exit m = true ∨ (hidden m' = true ∧ KeyMsg KeyCtrlC ∈ msgs)).
Proof.
  induction msgs as [|msg msgs IH]; intros m hp; cbn zeta.
  - cbn [run fst]. eauto.
  - assert (Hstep :
      run m hp (msg :: msgs) = (m, hp, true)
      ∨ run m hp (msg :: msgs) = ((Update m msg hp).1.1, (Update m msg hp).2, true)
      ∨ run m hp (msg :: msgs)
        = run (Update m msg hp).1.1 (Update m msg hp).2 msgs).
    { cbn [run]. destruct (Update m msg hp) as [[m1 c] hp1]. cbn [fst snd].
      destruct msg; eauto; destruct c as [|[]| |]; eauto. }
    pose proof (Update_flags m msg hp) as (U1 & U2 & U3). cbn zeta in *.
    destruct Hstep as [->|[->| ->]]; cbn [fst].
    + eauto.
    + split_and!; [done..|]. intros He. destruct (U3 He) as [?|[? ->]]; [eauto|].
      right. split; [done|]. by left.
    + destruct (IH (Update m msg hp).1.1 (Update m msg hp).2) as (I1 & I2 & I3).
      cbn zeta in *. split_and!; [eauto..|].
      intros He. destruct (I3 He) as [He1|[Hh Hin]].
      * destruct (U3 He1) as [?|[Hh1 ->]]; [eauto|].
        right. split; [eauto|by left].
      * right. split; [done|by right].
Qed.

(** X6.  Once the model is hidden it stays hidden: whatever messages
    follow, for whatever pages, the render is the empty string. *)
Theorem hidden_is_final (m : Model) (hp : Heap) (msgs : list Msg) :
  hidden m = true →
  hidden (run m hp msgs).1.1 = true
  ∧ View (run m hp msgs).1.1 (run m hp msgs).1.2 = "".
Proof.
  intros Hh. destruct (run_flags msgs m hp) as (H1 & _ & _). cbn zeta in H1.
  split; [by apply H1|]. unfold View. by rewrite (H1 Hh).
Qed.

(** X7.  From a fresh model the exit flag is set only by the interrupt key
    and never without hiding the model: if the flag is set after a run of
    messages, the interrupt key was among them and the model is hidden. *)
Theorem exit_only_by_interrupt (root0 : PageRef) (hp : Heap) (msgs : list Msg) :
  exit (run (NewModel root0) hp msgs).1.1 = true →
  hidden (run (NewModel root0) hp msgs).1.1 = true
  ∧ KeyMsg KeyCtrlC ∈ msgs.
Proof.
  intros He. destruct (run_flags msgs (NewModel root0) hp) as (_ & _ & H3).
  cbn zeta in H3. destruct (H3 He) as [Hf|Hr]; [done|exact Hr].
Qed.

Lemma last_lookup_pages (l : list PageRef) :
  l !! (length l - 1)%nat = last l.
Proof.
  destruct (snoc_cases l) as [->|(l' & x & ->)]; [done|].
  rewrite length_app, Nat.add_1_r, last_snoc. cbn [Nat.sub].
  rewrite Nat.sub_0_r. by rewrite list_lookup_middle.
Qed.

(** X8.  A message the model does not handle itself goes to the active
    page and to no other: the page that page's update returns becomes the
    active page in its place, the command and the store are the ones that
    update produced, and the other pages, the depth, the dimensions and the
    flags are as before. *)
Theorem forwarded_to_active_page (m : Model) (msg : Msg) (hp : Heap) :
  forwarded msg = true →
  let '(p, c, hp1) := page_Update msg (active m) hp in
  let '(m', c', hp') := Update m msg hp in
  c' = c ∧ hp' = hp1
  ∧ active m' = p
  ∧ length (pages m') = length (pages m)
  ∧ take (length (pages m) - 1) (pages m') = take (length (pages m) - 1) (pages m)
  ∧ root m' = (if pages m is [] then p else root m)
  ∧ width m' = width m ∧ height m' = height m
  ∧ hidden m' = hidden m ∧ exit m' = exit m.
Proof.
  intros Hf.
  assert (HU : Update m msg hp = updateCurrent m msg hp)
    by (destruct msg as [[| |code]| | | | | | | | |]; done).
  rewrite HU. clear HU Hf. unfold updateCurrent, active.
  rewrite last_lookup_pages.
  destruct (snoc_cases (pages m)) as [E|(s & x & E)]; rewrite E.
  - cbn [length Nat.eqb last].
    destruct (page_Update msg (root m) hp) as [[p c] hp1].
    cbn [pages root width height hidden exit last]. by split_and!.
  - rewrite length_app, Nat.add_1_r, last_snoc. cbn [Nat.eqb].
    destruct (page_Update msg x hp) as [[p c] hp1].
    cbn [pages root width height hidden exit].
    replace (S (length s) - 1)%nat with (length s) by lia.
    assert (Hins : <[length s := p]> (s ++ [x]) = s ++ [p]).
    { rewrite insert_app_r_alt by lia. by rewrite Nat.sub_diag. }
    rewrite Hins, last_snoc, !length_app, !take_app_length.
    split_and!; try done; [simpl; lia | by destruct s].
Qed.

Lemma fits_same m m' hp p :
  width m' = width m → height m' = height m → fits m hp p → fits m' hp p.
Proof. intros Hw Hh (ps & ? & ? & ?). exists ps. by rewrite Hw, Hh. Qed.

Lemma fits_resized m hp p q w h :
  is_Some (hp !! p) → width m = w → height m = h →
  (q = p ∨ fits m hp q) → fits m (page_SetSize p w h hp) q.
Proof.
  intros [ps Hps] Hw Hh Hq. unfold fits, page_SetSize. rewrite lookup_alter.
  destruct (decide (p = q)) as [->|Hne].
  - rewrite Hps. eexists. split; [done|]. by rewrite Hw, Hh.
  - destruct Hq as [->|Hq]; [done|]. exact Hq.
Qed.

(** X9.  Every message the model handles itself keeps the pages sized: if
    the root and all stacked pages have the model's dimensions before, and
    a page to push is an allocated page, then the root and all stacked
    pages have the model's dimensions after, a pushed page and an error
    page included. *)
Theorem sized_is_kept (m : Model) (msg : Msg) (hp : Heap) :
  sized m hp →
  forwarded msg = false →
  (∀ p, page_of msg = Some p → is_Some (hp !! p)) →
  sized (Update m msg hp).1.1 (Update m msg hp).2.
Proof.
  unfold sized. intros Hs Hf Hp.
  destruct msg as [[| |code]|w h|url|text|page|container| |e| |tag];
    try discriminate Hf; cbn [Update].
  - (* interrupt *)
    cbn [fst snd root pages]. eapply Forall_impl; [exact Hs|].
    intros q. by apply fits_same.
  - (* resize *)
    destruct (SetSize m w h hp) as [m1 hp1] eqn:HS. cbn [fst snd].
    assert (Hm : m1 = mkModel w h (root m) (pages m) (hidden m) (exit m))
      by (unfold SetSize in HS; by inversion HS).
    subst m1. cbn [root pages]. rewrite Forall_forall in Hs |- *.
    intros q Hq. destruct (Hs q Hq) as (ps & Hps & _).
    exists (setSize w h ps).
    replace hp1 with (SetSize m w h hp).2 by (by rewrite HS).
    rewrite (SetSize_lookup m w h hp q Hq), Hps. done.
  - (* open-url *)
    destruct (browser_OpenURL url); cbn [fst snd root pages]; [done|].
    eapply Forall_impl; [exact Hs|]. intros q. by apply fits_same.
  - (* copy-text *)
    destruct (clipboard_WriteAll text); cbn [fst snd root pages]; [done|].
    eapply Forall_impl; [exact Hs|]. intros q. by apply fits_same.
  - (* PushPageMsg *)
    unfold Push, pageHeight. cbn [fst snd root pages].
    rewrite app_comm_cons. apply Forall_app. split.
    + eapply Forall_impl; [exact Hs|]. intros q Hq.
      apply fits_same with (m := m); [done..|].
      apply fits_resized; eauto.
    + constructor; [|done]. apply fits_same with (m := m); [done..|].
      apply fits_resized; eauto.
  - (* pushMsg *)
    unfold Push, pageHeight. cbn [fst snd root pages].
    rewrite app_comm_cons. apply Forall_app. split.
    + eapply Forall_impl; [exact Hs|]. intros q Hq.
      apply fits_same with (m := m); [done..|].
      apply fits_resized; eauto.
    + constructor; [|done]. apply fits_same with (m := m); [done..|].
      apply fits_resized; eauto.
  - (* pop *)
    destruct (length (pages m) =? 0)%nat; cbn [fst snd]; [done|].
    rewrite Forall_forall in Hs |- *. intros q Hq.
    apply fits_same with (m := m);
      [unfold Pop; by destruct (0 <? length (pages m))%nat..|].
    apply Hs. rewrite Pop_root in Hq.
    apply elem_of_cons in Hq as [->|Hq]; [by left|].
    right. by apply (Pop_pages_subseteq m).
  - (* error *)
    cbn [NewDetail]. set (d := fresh (dom hp)).
    assert (Hd : hp !! d = None) by (apply not_elem_of_dom, is_fresh).
    unfold viewport_SetContent, page_SetSize, pageHeight.
    set (hp3 := alter _ d _).
    assert (Hold : ∀ q, fits m hp q → fits m hp3 q).
    { intros q (ps & Hq & Hwh). exists ps. split; [|done].
      assert (d ≠ q) by (intros ->; by rewrite Hd in Hq).
      unfold hp3. by rewrite !lookup_alter_ne, lookup_insert_ne. }
    assert (Hnew : fits m hp3 d).
    { unfold fits, hp3. rewrite !lookup_alter_eq, lookup_insert_eq.
      eexists. split; [done|]. done. }
    rewrite Forall_forall in Hs.
    destruct (length (pages m) =? 0)%nat eqn:El; cbn [fst snd root pages];
      rewrite Forall_forall; intros q Hq.
    + apply fits_same with (m := m); [done..|].
      apply elem_of_cons in Hq as [->|Hq]; [done|].
      apply Hold, Hs. by right.
    + apply fits_same with (m := m); [done..|].
      apply elem_of_cons in Hq as [->|Hq]; [apply Hold, Hs; by left|].
      apply list_elem_of_lookup in Hq as [i Hi].
      destruct (decide (i = (length (pages m) - 1)%nat)) as [->|Hne].
      * rewrite list_lookup_insert_eq in Hi.
        -- by injection Hi as <-.
        -- apply Nat.eqb_neq in El. lia.
      * rewrite list_lookup_insert_ne in Hi by done.
        apply Hold, Hs. right. by eapply list_elem_of_lookup_2.
Qed.

End ModelMessages.

(* ===================================================================== *)
(** * Further properties of the root list                                 *)
(* ===================================================================== *)

Section RootListItems.
Import App Tui RootSpec ListSpec.

(** X10.  The comparator of the root list is a strict weak ordering for
    every history, the nil one included: no item comes before itself,
    coming before is transitive, and so is coming neither before nor
    after; it looks at the ids only. *)
Theorem Less_is_strict_weak_order (history : History) (i j k : ListItem) :
  Less history i i = false
  ∧ (Less history i j = true → Less history j i = false)
  ∧ (Less history i j = true → Less history j k = true → Less history i k = true)
  ∧ (Less history i j = false → Less history j k = false →
     Less history i k = false)
  ∧ (ID i = ID j → Less history i k = Less history j k
                   ∧ Less history k i = Less history k j).
Proof.
  rewrite !Less_timestamp. split_and!.
  - rewrite Z.gtb_ltb. apply Z.ltb_irrefl.
  - rewrite !Z.gtb_ltb, Z.ltb_lt, Z.ltb_ge. lia.
  - rewrite !Z.gtb_ltb, !Z.ltb_lt. lia.
  - rewrite !Z.gtb_ltb, !Z.ltb_ge. lia.
  - intros Hid. unfold timestamp. rewrite Hid. done.
Qed.

Lemma runAction_table `{OS} (stateDir historyPath : string)
    (rootItem : RootItemWithID) (extension : Extension)
    (tbl : gmap string Z) (hp : Heap) (tr : list Effect) :
  ∃ msg w', runAction (RunCommandCmd stateDir historyPath rootItem extension)
                      (mkWorld (Some tbl) hp tr) = Returned msg w'
            ∧ w_history w' = Some (<[ri_id rootItem := time_Now_Unix]> tbl).
Proof.
  unfold runAction, runCommandCmd.
  unfold mbind, mret, IO_bind, IO_ret, io_bind, io_ret, history_assign,
    io_Stat, io_MkdirAll, io_WriteFile, read_history, emit, NewCommandRunner.
  cbn [w_history w_heap w_trace].
  unfold mbind, mret, IO_bind, IO_ret, io_bind, io_ret, emit.
  cbn [w_history w_heap w_trace].
  destruct (os_IsNotExist (os_Stat stateDir));
    cbn [w_history w_heap w_trace json_Marshal];
    unfold mbind, mret, IO_bind, IO_ret, io_bind, io_ret, emit;
    cbn [w_history w_heap w_trace json_Marshal];
    eauto.
Qed.

(** X11.  Running an item moves it to the front of its rivals: under the
    history the run action leaves, the item comes before every item with
    another id that was last run before now, and none of those comes before
    it. *)
Theorem run_ranks_item_first `{OS} (stateDir historyPath : string)
    (rootItem : RootItemWithID) (extension : Extension)
    (tbl : gmap string Z) (hp : Heap) (tr : list Effect) (i j : ListItem) :
  ID i = ri_id rootItem →
  ID j ≠ ri_id rootItem →
  timestamp (Some tbl) j < time_Now_Unix →
  match runAction (RunCommandCmd stateDir historyPath rootItem extension)
                  (mkWorld (Some tbl) hp tr) with
  | Returned _ w' =>
      Less (w_history w') i j = true ∧ Less (w_history w') j i = false
  | Panicked _ _ => False
  end.
Proof.
  intros Hi Hj Hlt.
  destruct (runAction_table stateDir historyPath rootItem extension tbl hp tr)
    as (msg & w' & -> & Hw).
  rewrite Hw, !Less_timestamp. unfold timestamp in *.
  rewrite Hi, lookup_insert_eq, lookup_insert_ne by done.
  change (default 0 (Some time_Now_Unix)) with time_Now_Unix.
  split.
  - rewrite Z.gtb_ltb. apply Z.ltb_lt. exact Hlt.
  - rewrite Z.gtb_ltb. apply Z.ltb_ge. apply Z.lt_le_incl. exact Hlt.
Qed.





End RootListItems.

Lemma hidden_is_final_witness :
  let m := Tui.mkModel 80 24 0%nat [] true false in
  let msgs := [Tui.pushMsg 1%nat; Tui.WindowSizeMsg 100 30; Tui.otherMsg 0] in
  Tui.hidden (@Tui.run Sample.host m Sample.heap3 msgs).1.1 = true
  ∧ @Tui.View Sample.host (@Tui.run Sample.host m Sample.heap3 msgs).1.1
                          (@Tui.run Sample.host m Sample.heap3 msgs).1.2 = "".
Proof.
  apply (@hidden_is_final Sample.host (Tui.mkModel 80 24 0%nat [] true false)
           Sample.heap3 [Tui.pushMsg 1%nat; Tui.WindowSizeMsg 100 30; Tui.otherMsg 0]).
  reflexivity.
Defined.

Lemma exit_only_by_interrupt_witness :
  let msgs := [Tui.pushMsg 1%nat; Tui.KeyMsg Tui.KeyCtrlC; Tui.popMsg] in
  Tui.hidden (@Tui.run Sample.host (Tui.NewModel 0%nat) Sample.heap3 msgs).1.1 = true
  ∧ Tui.KeyMsg Tui.KeyCtrlC ∈ msgs.
Proof.
  apply (@exit_only_by_interrupt Sample.host 0%nat Sample.heap3
           [Tui.pushMsg 1%nat; Tui.KeyMsg Tui.KeyCtrlC; Tui.popMsg]).
  reflexivity.
Defined.

Lemma forwarded_to_active_page_witness :
  let m := Tui.mkModel 80 24 0%nat [1; 2]%nat false false in
  Tui.active (@Tui.Update Sample.host m (Tui.KeyMsg Tui.KeyEscape) Sample.heap3).1.1
  = 2%nat
  ∧ Tui.pages (@Tui.Update Sample.host m (Tui.KeyMsg Tui.KeyEscape) Sample.heap3).1.1
    = [1; 2]%nat.
Proof.
  pose proof (@forwarded_to_active_page Sample.host
                (Tui.mkModel 80 24 0%nat [1; 2]%nat false false)
                (Tui.KeyMsg Tui.KeyEscape) Sample.heap3 eq_refl) as Hfw.
  cbn in Hfw. destruct Hfw as (_ & _ & Ha & _). split; [exact Ha|reflexivity].
Defined.

Lemma sized_is_kept_witness :
  let m := Tui.mkModel 0 0 0%nat [1]%nat false false in
  StackSpec.sized (@Tui.Update Sample.host m (Tui.pushMsg 2%nat) Sample.heap3).1.1
                  (@Tui.Update Sample.host m (Tui.pushMsg 2%nat) Sample.heap3).2.
Proof.
  apply (@sized_is_kept Sample.host (Tui.mkModel 0 0 0%nat [1]%nat false false)
           (Tui.pushMsg 2%nat) Sample.heap3).
  - repeat constructor; eexists; (split; [reflexivity|split; reflexivity]).
  - reflexivity.
  - intros p [= <-]. eexists. reflexivity.
Defined.

Lemma run_ranks_item_first_witness :
  match @Tui.runAction (Sample.os_with None true)
          (Tui.RunCommandCmd "/s" "/s/history.json"
             (Tui.mkRootItemWithID (App.mkRootItem "ext" "a" "A" []) "ext:A")
             Sample.greeter)
          (Tui.mkWorld Sample.history_BC ∅ []) with
  | Tui.Returned _ w' =>
      Tui.Less (Tui.w_history w') Sample.itemA Sample.itemC = true
      ∧ Tui.Less (Tui.w_history w') Sample.itemC Sample.itemA = false
  | Tui.Panicked _ _ => False
  end.
Proof.
  apply (@run_ranks_item_first (Sample.os_with None true) "/s" "/s/history.json"
           (Tui.mkRootItemWithID (App.mkRootItem "ext" "a" "A" []) "ext:A")
           Sample.greeter (<["ext:B" := 10]> (<["ext:C" := 20]> ∅)) ∅ []
           Sample.itemA Sample.itemC).
  - reflexivity.
  - discriminate.
  - vm_compute. reflexivity.
Defined.

(* ===================================================================== *)
(** * Further properties of the command resolver                          *)
(* ===================================================================== *)

Section ResolverRuns.
Import App Cmd CmdSpec.
Context `{RunEnv}.

Lemma runRemote_Ran (origin : string) (rest : list string) (input : string)
    (c : TCommand) (res : option error) :
  runRemote origin rest input = Ran c res →
  ∃ status body tmpDir,
    http_Get origin = inr (Response 200 status body)
    ∧ os_MkdirTemp = inr tmpDir
    ∧ os_OpenFile (filepath_Join tmpDir "sunbeam-command") = None
    ∧ io_Copy (filepath_Join tmpDir "sunbeam-command") body = None
    ∧ file_Close (filepath_Join tmpDir "sunbeam-command") = None
    ∧ c = mkTCommand (filepath_Join tmpDir "sunbeam-command") rest input
    ∧ res = runCommand c.
Proof.
  unfold runRemote, run. intros Hr.
  destruct (http_Get origin) as [err|[code status body]]; [done|].
  destruct (code =? 200) eqn:Ec; [|done]. apply Z.eqb_eq in Ec as ->.
  cbn [negb] in Hr.
  destruct os_MkdirTemp as [err|tmpDir]; [done|].
  destruct (os_OpenFile _) eqn:Eo; [done|].
  destruct (io_Copy _ _) eqn:Ei; [done|].
  destruct (file_Close _) eqn:Ef; [done|].
  injection Hr as <- <-. exists status, body, tmpDir. by split_and!.
Qed.

(** X13.  A remote origin is run only as the script that was fetched: when
    the origin is an https URL and a command was run at all, the fetch
    answered 200, the body was written to [sunbeam-command] in a new
    temporary directory without error, and the command run is that file
    with the trailing arguments and the input.  A failed fetch, another
    status or a failed write runs nothing. *)
Theorem remote_runs_only_fetched_script (origin : string) (rest : list string)
    (input : string) (c : TCommand) (res : option error) :
  stdin_input = inr input →
  isHttps origin = true →
  rr_outcome (NewRunCmd (origin :: rest)) = Ran c res →
  ∃ status body tmpDir,
    http_Get origin = inr (Response 200 status body)
    ∧ os_MkdirTemp = inr tmpDir
    ∧ os_OpenFile (filepath_Join tmpDir "sunbeam-command") = None
    ∧ io_Copy (filepath_Join tmpDir "sunbeam-command") body = None
    ∧ file_Close (filepath_Join tmpDir "sunbeam-command") = None
    ∧ c = mkTCommand (filepath_Join tmpDir "sunbeam-command") rest input
    ∧ res = runCommand c.
Proof.
  intros Hin Hs Hr. apply runRemote_Ran.
  change (NewRunCmd (origin :: rest)) with (RunE (origin :: rest)) in Hr.
  unfold RunE in Hr. rewrite Hin, Hs in Hr. exact Hr.
Qed.

(** X14.  Whatever the resolver runs, it runs with the original input and
    with the arguments that follow the origin, less the subcommand name
    when the dispatcher consumed it; it prints nothing on the way, and its
    result is the result of that one run. *)
Theorem run_gets_input_and_trailing_args (args : list string) (c : TCommand)
    (res : option error) :
  rr_outcome (NewRunCmd args) = Ran c res →
  stdin_input = inr (tc_Input c)
  ∧ (tc_Args c = drop 1 args ∨ tc_Args c = drop 2 args)
  ∧ res = runCommand c
  ∧ rr_stderr (NewRunCmd args) = [].
Proof.
  intros Hr. destruct args as [|origin rest]; [done|].
  change (NewRunCmd (origin :: rest)) with (RunE (origin :: rest)) in *.
  unfold RunE in *.
  destruct stdin_input as [err|input]; [done|].
  destruct (isHttps origin).
  - cbn [rr_outcome rr_stderr quiet] in *.
    apply runRemote_Ran in Hr as (status & body & tmpDir & _ & _ & _ & _ & _ & -> & ->).
    cbn [tc_Input tc_Args drop]. eauto.
  - rewrite runLocal_locate in *.
    destruct (locate origin) as [err|path]; [done|].
    destruct (negb (String.eqb (filepath_Base path) manifestName)).
    { cbn [rr_outcome rr_stderr quiet] in *. unfold run in Hr.
      injection Hr as <- <-. cbn [tc_Input tc_Args drop]. eauto. }
    destruct (ParseCommand (filepath_Dir path)) as [err|command]; [done|].
    destruct (negb (String.eqb (cmd_Entrypoint command) "")).
    { cbn [rr_outcome rr_stderr quiet] in *. unfold run in Hr.
      injection Hr as <- <-. cbn [tc_Input tc_Args drop]. eauto. }
    unfold dispatch in *.
    destruct (length (origin :: rest) <? 2)%nat; [done|].
    destruct ((origin :: rest) !! 1%nat); [|done].
    destruct (findSubCommand _ _); [|done].
    cbn [rr_outcome rr_stderr quiet] in *. unfold run in Hr.
    injection Hr as <- <-. cbn [tc_Input tc_Args]. eauto.
Qed.

End ResolverRuns.

Lemma remote_runs_only_fetched_script_witness :
  ∃ status body tmpDir,
    @Cmd.http_Get (Sample.run_env (Sample.tool "")) "https://example.org/s"
      = inr (Cmd.Response 200 status body)
    ∧ @Cmd.os_MkdirTemp (Sample.run_env (Sample.tool "")) = inr tmpDir
    ∧ None = (None : option Cmd.error)
    ∧ None = (None : option Cmd.error)
    ∧ None = (None : option Cmd.error)
    ∧ Cmd.mkTCommand "/tmp/sunbeam1/sunbeam-command" ["x"] ""
      = Cmd.mkTCommand (tmpDir +:+ "/" +:+ "sunbeam-command") ["x"] ""
    ∧ None = (None : option Cmd.error).
Proof.
  apply (@remote_runs_only_fetched_script (Sample.run_env (Sample.tool ""))
           "https://example.org/s" ["x"] ""
           (Cmd.mkTCommand "/tmp/sunbeam1/sunbeam-command" ["x"] "") None);
    reflexivity.
Defined.

Lemma run_gets_input_and_trailing_args_witness :
  @Cmd.stdin_input (Sample.run_env (Sample.tool "")) = inr ""
  ∧ (["x"; "y"] = drop 1 ["/ext"; "build"; "x"; "y"]
     ∨ ["x"; "y"] = drop 2 ["/ext"; "build"; "x"; "y"])
  ∧ None = (None : option Cmd.error)
  ∧ Cmd.rr_stderr (@Cmd.NewRunCmd (Sample.run_env (Sample.tool ""))
                     ["/ext"; "build"; "x"; "y"]) = [].
Proof.
  apply (@run_gets_input_and_trailing_args (Sample.run_env (Sample.tool ""))
           ["/ext"; "build"; "x"; "y"]
           (Cmd.mkTCommand "/ext/build.sh" ["x"; "y"] "") None).
  reflexivity.
Defined.

(* ===================================================================== *)
(** * Properties of the filter command                                    *)
(* ===================================================================== *)

Section FilterRows.
Import Cmd FilterSpec.

Lemma string_app_cons ch (a b : string) : String ch a +:+ b = String ch (a +:+ b).
Proof. reflexivity. Qed.

Lemma string_app_nil_l (a : string) : "" +:+ a = a.
Proof. reflexivity. Qed.

Lemma string_app_assoc (a b c : string) : (a +:+ b) +:+ c = a +:+ (b +:+ c).
Proof.
  induction a as [|ch a IH]; [done|]. rewrite !string_app_cons. by f_equal.
Qed.

Lemma string_app_nil_r (a : string) : a +:+ "" = a.
Proof.
  induction a as [|ch a IH]; [done|]. rewrite string_app_cons. by f_equal.
Qed.

Lemma prefix_drop (sep : string) : ∀ s,
  String.prefix sep s = true →
  s = sep +:+ string_drop (String.length sep) s
  ∧ (String.length sep ≤ String.length s)%nat.
Proof.
  induction sep as [|a sep IH]; intros s Hp.
  - split; [done|]. cbn. lia.
  - destruct s as [|b s]; [done|]. cbn in Hp.
    destruct (Ascii.ascii_dec a b) as [->|]; [|done].
    destruct (IH s Hp) as [Hs Hl]. cbn [String.length string_drop].
    rewrite string_app_cons. split; [by rewrite <- Hs|lia].
Qed.

Lemma split_scan_nonempty (sep : string) (s : string) : ∀ skip cur,
  (0 < length (split_scan sep skip cur s))%nat.
Proof.
  induction s as [|ch s IH]; intros skip cur; cbn [split_scan].
  - cbn. lia.
  - destruct skip; [|apply IH].
    destruct (String.prefix sep (String ch s)); [cbn; lia|apply IH].
Qed.

Lemma concat_cons (sep x : string) (l : list string) :
  (0 < length l)%nat →
  String.concat sep (x :: l) = x +:+ sep +:+ String.concat sep l.
Proof. destruct l; [cbn; lia|done]. Qed.

(** Joining the pieces with the separator gives the text back. *)
Lemma split_scan_concat (sep : string) (s : string) : ∀ skip cur,
  sep ≠ "" →
  (skip ≤ String.length s)%nat →
  String.concat sep (split_scan sep skip cur s) = cur +:+ string_drop skip s.
Proof.
  induction s as [|ch s IH]; intros skip cur Hsep Hskip; cbn [split_scan].
  - cbn in Hskip. replace skip with 0%nat by lia. cbn. by rewrite string_app_nil_r.
  - destruct skip as [|k].
    + destruct (String.prefix sep (String ch s)) eqn:Hp.
      * destruct (prefix_drop _ _ Hp) as [Hs Hl].
        rewrite concat_cons by apply split_scan_nonempty.
        destruct sep as [|a sep]; [done|]. cbn [String.length string_drop] in *.
        replace (S (String.length sep) - 1)%nat with (String.length sep) by lia.
        rewrite IH by (done || lia).
        rewrite string_app_nil_l. by rewrite <- Hs.
      * rewrite IH by (done || lia). cbn [string_drop].
        by rewrite string_app_assoc, string_app_cons, string_app_nil_l.
    + cbn [String.length] in Hskip. rewrite IH by (done || lia). done.
Qed.

Section WithFilterEnv.
Context `{FilterEnv}.

Lemma inputRows_nonempty (b : string) : (0 < length (inputRows b))%nat.
Proof. unfold inputRows. destruct fe_windows; apply split_scan_nonempty. Qed.

(** X15.  The filter command never reports that its input has no rows:
    cutting the trimmed input into rows always yields at least one, so the
    command either fails on a terminal or an unreadable input, or goes on
    to build the page; input that trims to nothing is the single empty
    row. *)
Theorem filter_always_has_a_row (flags : FilterFlags) (b : string) :
  filterRunE flags
  = (if fe_IsTerminal then inl NoInput
     else match fe_ReadAll with
          | inl err => inl (CouldNotRead err)
          | inr b => inr (filterPage flags (default "Sunbeam" (fl_title flags))
                                     (inputRows b))
          end)
  ∧ (0 < length (inputRows b))%nat
  ∧ (bytes_TrimSpace b = "" → inputRows b = [""]).
Proof.
  split_and!.
  - unfold filterRunE. destruct fe_IsTerminal; [done|].
    destruct fe_ReadAll as [err|b0]; [done|].
    pose proof (inputRows_nonempty b0) as Hn.
    destruct (length (inputRows b0)) eqn:E; [lia|done].
  - apply inputRows_nonempty.
  - intros Hb. unfold inputRows. rewrite Hb. by destruct fe_windows.
Qed.

Lemma strings_Split_concat (row sep : string) :
  sep ≠ "" →
  String.concat sep (strings_Split row sep) = row
  ∧ (0 < length (strings_Split row sep))%nat.
Proof.
  intros Hsep. unfold strings_Split.
  apply String.eqb_neq in Hsep as Hb. rewrite Hb. split.
  - rewrite split_scan_concat by (done || lia). done.
  - apply split_scan_nonempty.
Qed.

Lemma firstFields_nonempty (tokens : list string) :
  (0 < length tokens)%nat →
  firstFields tokens
  = Val (default "" (tokens !! 0%nat), default "" (tokens !! 1%nat), drop 2 tokens).
Proof.
  intros Hlen. unfold firstFields.
  destruct (index_in_range tokens 0) as (title & Ht & ->); [lia|].
  change (Z.to_nat 0) with 0%nat in Ht. rewrite Ht. cbn [default].
  destruct tokens as [|t0 [|t1 [|t2 rest]]]; cbn in *; done.
Qed.

(** X16.  Without [--with-nth] and with a non-empty delimiter a row always
    yields its item: the title is the first delimited piece of the row, the
    subtitle the second or empty, the accessories the pieces after that,
    and the pieces joined by the delimiter are the row again; the Confirm
    action pastes the row itself. *)
Theorem first_fields_rejoin (flags : FilterFlags) (row : string) :
  fl_json flags = false →
  fl_with_nth flags = None →
  fl_delimiter flags ≠ "" →
  let tokens := strings_Split row (fl_delimiter flags) in
  rowItem flags row
  = Val (inr (mkTListItem (default "" (tokens !! 0%nat))
                          (default "" (tokens !! 1%nat))
                          (drop 2 tokens)
                          [mkTAction PasteAction "Confirm" row]))
  ∧ String.concat (fl_delimiter flags) tokens = row
  ∧ (0 < length tokens)%nat.
Proof.
  intros Hj Hn Hd tokens.
  destruct (strings_Split_concat row (fl_delimiter flags) Hd) as [Hc Hl].
  split_and!; [|done..].
  unfold rowItem. rewrite Hj, Hn. fold tokens.
  by rewrite (firstFields_nonempty tokens Hl).
Qed.

Lemma rowItems_actions (flags : FilterFlags) (rows : list string) :
  fl_json flags = false →
  ∀ acc items,
    rowItems flags rows acc = Val (inr items) →
    ∃ new, items = acc ++ new
           ∧ List.map tl_Actions new
             = List.map (fun row => [mkTAction PasteAction "Confirm" row]) rows.
Proof.
  intros Hj. induction rows as [|row rows IH]; intros acc items Hr.
  - cbn in Hr. injection Hr as <-. exists []. by rewrite app_nil_r.
  - cbn [rowItems] in Hr. unfold rowItem in Hr. rewrite Hj in Hr.
    destruct (match fl_with_nth flags with
              | Some nths => withNth _ nths
              | None => firstFields _
              end) as [[[title subtitle] accessories]|r]; [|done].
    destruct (IH _ _ Hr) as (new & -> & Hmap).
    eexists (_ :: new). rewrite <- app_assoc. split; [done|].
    cbn [List.map tl_Actions]. by rewrite Hmap.
Qed.

(** X17.  When the rows are not JSON and the page is built, it is a list
    page under the given title with one item per row, in the order of the
    rows, and the single action of each item is Confirm, pasting the whole
    row, whatever fields are shown. *)
Theorem filter_page_pastes_rows (flags : FilterFlags) (title : string)
    (rows : list string) (page : TPage) :
  fl_json flags = false →
  filterPage flags title rows = Val (inr page) →
  tp_Type page = ListPage
  ∧ tp_Title page = title
  ∧ length (tp_Items page) = length rows
  ∧ List.map tl_Actions (tp_Items page)
    = List.map (fun row => [mkTAction PasteAction "Confirm" row]) rows.
Proof.
  intros Hj Hp. unfold filterPage in Hp.
  destruct (rowItems flags rows []) as [[err|items]|r] eqn:Hr; try done.
  injection Hp as <-. cbn [tp_Type tp_Title tp_Items].
  destruct (rowItems_actions flags rows Hj [] items Hr) as (new & -> & Hmap).
  cbn [app]. split_and!; [done..| |done].
  by rewrite <- (length_map tl_Actions new), Hmap, length_map.
Qed.

End WithFilterEnv.

Lemma safeGet_cases (tokens : list string) (idx : Z) :
  int_min <= idx <= int_max →
  Z.of_nat (length tokens) <= int_max →
  safeGet tokens idx
  = if 0 <=? idx then Val (field tokens idx) else Panic "index out of range".
Proof.
  intros Hidx Hlen. unfold safeGet, field.
  destruct (0 <=? idx) eqn:E0.
  - apply Z.leb_le in E0.
    destruct (idx =? 0) eqn:Ez; [done|]. apply Z.eqb_neq in Ez.
    rewrite Z.gtb_ltb.
    destruct (Z.of_nat (length tokens) <? idx) eqn:E1; [done|].
    apply Z.ltb_ge in E1. cbn [orb].
    rewrite int_wrap_id by (unfold int_min, int_max in *; lia).
    destruct (index_in_range tokens (idx - 1)) as (s & Hs & ->); [lia|].
    by rewrite Hs.
  - apply Z.leb_gt in E0.
    replace (idx =? 0) with false by (symmetry; apply Z.eqb_neq; lia).
    replace (idx >? Z.of_nat (length tokens)) with false
      by (symmetry; rewrite Z.gtb_ltb; apply Z.ltb_ge; lia).
    apply index_out_of_range.
    destruct (decide (idx = int_min)) as [->|Hne].
    + right. rewrite int_wrap_underflow. lia.
    + left. rewrite int_wrap_id; unfold int_min, int_max in *; lia.
Qed.

Lemma safeGetAll_cases (tokens : list string) (nths : list Z) :
  Forall (fun n => int_min <= n <= int_max) nths →
  Z.of_nat (length tokens) <= int_max →
  safeGetAll tokens nths
  = if forallb (fun n => 0 <=? n) nths then Val (List.map (field tokens) nths)
    else Panic "index out of range".
Proof.
  intros Hr Hlen. induction Hr as [|n nths Hn _ IH]; [done|].
  cbn [safeGetAll forallb List.map]. rewrite (safeGet_cases tokens n Hn Hlen), IH.
  destruct (0 <=? n); [|done]. cbn [andb].
  by destruct (forallb (fun n0 => 0 <=? n0) nths).
Qed.

(** X18.  With [--with-nth] the fields of a row are read without a panic
    exactly when no index is negative: then the title is the field of the
    first index, the subtitle the field of the second or empty, the
    accessories the fields of the others, a field that does not exist being
    empty; one negative index anywhere makes the row panic. *)
Theorem withNth_panics_iff_negative (tokens : list string) (nths : list Z) :
  nths ≠ [] →
  Forall (fun n => int_min <= n <= int_max) nths →
  Z.of_nat (length tokens) <= int_max →
  withNth tokens nths
  = if forallb (fun n => 0 <=? n) nths
    then Val (field tokens (default 0 (nths !! 0%nat)),
              from_option (field tokens) "" (nths !! 1%nat),
              List.map (field tokens) (drop 2 nths))
    else Panic "index out of range".
Proof.
  intros Hne Hr Hlen. destruct nths as [|n0 rest]; [done|].
  apply Forall_cons in Hr as [H0 Hr]. cbn [withNth forallb].
  rewrite (safeGet_cases tokens n0 H0 Hlen).
  destruct (0 <=? n0); [|done]. cbn [andb].
  destruct rest as [|n1 rest2]; [done|].
  apply Forall_cons in Hr as [H1 Hr]. cbn [forallb].
  rewrite (safeGet_cases tokens n1 H1 Hlen), (safeGetAll_cases tokens rest2 Hr Hlen).
  destruct (0 <=? n1); [|done]. cbn [andb].
  by destruct (forallb (fun n => 0 <=? n) rest2).
Qed.

End FilterRows.

(* ===================================================================== *)
(** * Further properties of the command-surface builder                   *)
(* ===================================================================== *)

Section GeneratedCommands.
Import App Cmd CmdSpec.

Lemma MarkFlagRequired_shape (name : string) (flags : list Flag) :
  List.map shape (MarkFlagRequired name flags) = List.map shape flags.
Proof.
  unfold MarkFlagRequired. induction flags as [|f flags IH]; [done|].
  cbn [List.map]. rewrite IH. by destruct (String.eqb (flag_Name f) name).
Qed.

Lemma addParam_shape (p : Param) (flags flags' : list Flag) :
  addParam p flags = Val (inr flags') →
  ∃ d, List.map shape flags' = List.map shape flags ++ [(param_Name p, d)]
       ∧ typed p d.
Proof.
  unfold addParam, AddFlag. cbn [flag_Name].
  destruct (defined (param_Name p) flags).
  - destruct (String.eqb (param_Type p) ParamTypeString).
    + by destruct (param_Default p).
    + destruct (String.eqb (param_Type p) ParamTypeBoolean); [|done].
      by destruct (param_Default p).
  - destruct (String.eqb (param_Type p) ParamTypeString) eqn:Es.
    + destruct (param_Default p); try done;
        destruct (negb (param_Optional p)); intros [= <-];
        rewrite ?MarkFlagRequired_shape, map_app; eexists; split; done.
    + destruct (String.eqb (param_Type p) ParamTypeBoolean) eqn:Eb; [|done].
      destruct (param_Default p); try done;
        destruct (negb (param_Optional p)); intros [= <-];
        rewrite ?MarkFlagRequired_shape, map_app; eexists; split; done.
Qed.

Lemma addParams_shape (params : list Param) : ∀ flags flags',
  addParams params flags = Val (inr flags') →
  ∃ new, List.map shape flags' = List.map shape flags ++ new
         ∧ Forall2 (fun p nd => nd.1 = param_Name p ∧ typed p nd.2) params new.
Proof.
  induction params as [|p params IH]; intros flags flags'; cbn [addParams].
  - intros [= <-]. exists []. by rewrite app_nil_r.
  - destruct (addParam p flags) as [[err|flags1]|r] eqn:E; [done| |done].
    intros Hrest. destruct (addParam_shape _ _ _ E) as (d & Hs1 & Ht).
    destruct (IH _ _ Hrest) as (new & Hs & HF).
    exists ((param_Name p, d) :: new). split.
    + by rewrite Hs, Hs1, <- app_assoc.
    + by constructor.
Qed.

Lemma values_of_shape (flags : list Flag) (values : list (string * FlagValue))
    (params : list Param) :
  values_of flags values →
  Forall2 (fun p nd => nd.1 = param_Name p ∧ typed p nd.2) params
          (List.map shape flags) →
  Forall2 (fun p nv => nv.1 = param_Name p ∧ typed p nv.2) params values.
Proof.
  unfold values_of. intros Hv. revert params.
  induction Hv as [|f nv flags values [Hn Hk] _ IH]; intros params Hp.
  - by apply Forall2_nil_inv_r in Hp as ->.
  - cbn [List.map] in Hp.
    apply Forall2_cons_inv_r in Hp as (p & params' & [Hpn Hpt] & Hp & ->).
    constructor; [|by apply IH].
    cbn [shape fst snd] in *. split; [congruence|].
    unfold same_kind, typed in *.
    destruct (flag_Default f), (nv.2); done.
Qed.

Lemma flagValue_elem (values : list (string * FlagValue)) (nv : string * FlagValue) :
  NoDup values.*1 → nv ∈ values → flagValue values nv.1 = Some nv.2.
Proof.
  unfold flagValue. induction values as [|[n v] values IH]; intros Hnd Hin.
  - by apply elem_of_nil in Hin.
  - cbn [fmap list_fmap] in Hnd. apply NoDup_cons in Hnd as [Hn Hnd].
    cbn [find fst]. apply elem_of_cons in Hin as [->|Hin].
    + cbn [fst]. by rewrite String.eqb_refl.
    + destruct (String.eqb_spec n nv.1) as [->|Hne].
      * exfalso. apply Hn. apply list_elem_of_fmap. by exists nv.
      * by apply IH.
Qed.

Lemma collectParams_values (values : list (string * FlagValue))
    (params : list Param) (pvals : list (string * FlagValue)) :
  Forall2 (fun p nv => nv.1 = param_Name p ∧ typed p nv.2) params pvals →
  (∀ nv, nv ∈ pvals → flagValue values nv.1 = Some nv.2) →
  ∀ acc, collectParams params values acc
         = inr (foldl (fun m nv => <[nv.1 := nv.2]> m) acc pvals).
Proof.
  induction 1 as [|p [n v] params pvals [Hn Ht] _ IH]; intros Hall acc; [done|].
  cbn [fst snd] in *. subst n. cbn [collectParams foldl fst snd].
  assert (Hv : flagValue values (param_Name p) = Some v)
    by (apply (Hall (param_Name p, v)); by left).
  unfold GetString, GetBool. rewrite Hv. unfold typed in Ht.
  destruct v as [sv|bv].
  - rewrite Ht. apply IH. intros nv Hnv. apply Hall. by right.
  - destruct Ht as [-> ->]. apply IH. intros nv Hnv. apply Hall. by right.
Qed.

Lemma foldl_insert_list_to_map (l : list (string * FlagValue)) :
  NoDup l.*1 →
  foldl (fun m nv => <[nv.1 := nv.2]> m) (∅ : gmap string FlagValue) l
  = list_to_map l.
Proof.
  intros Hnd.
  assert (Hrev : ∀ (k : list (string * FlagValue)) (acc : gmap string FlagValue),
             foldl (fun m nv => <[nv.1 := nv.2]> m) acc k
             = foldr (fun nv m => <[nv.1 := nv.2]> m) acc (rev k)).
  { induction k as [|nv k IHk]; intros acc; [done|].
    cbn [foldl rev]. by rewrite IHk, foldr_app. }
  rewrite Hrev.
  transitivity (list_to_map (rev l) : gmap string FlagValue).
  - generalize (rev l). intros k. induction k as [|[n v] k IHk]; [done|].
    cbn [foldr list_to_map fst snd]. by rewrite IHk.
  - apply list_to_map_proper; [|symmetry; apply Permutation_rev].
    by rewrite <- Permutation_rev.
Qed.

Lemma addCommands_sub (commands : list Command) : ∀ subs subs',
  addCommands commands subs = Val (inr subs') →
  ∀ sub, sub ∈ subs' →
         sub ∈ subs
         ∨ addParams (cmd_Params (sub_Command sub)) [] = Val (inr (sub_Flags sub)).
Proof.
  induction commands as [|c commands IH]; intros subs subs'; cbn [addCommands].
  - intros [= <-] sub Hin. by left.
  - destruct (addParams (cmd_Params c) []) as [[err|flags]|r] eqn:E; [done| |done].
    intros Hrest sub Hin. destruct (IH _ _ Hrest sub Hin) as [Hold|Hnew]; [|by right].
    apply elem_of_app in Hold as [Hold|Hnew]; [by left|].
    apply list_elem_of_singleton in Hnew as ->. by right.
Qed.

(** X19.  A subcommand that was built runs with exactly its flags: for
    parameters of distinct names, and current flag values of the
    registered flags, the argument map handed to the extension binds every
    parameter name to the value of its flag and nothing else; no flag
    lookup fails and no parameter type is refused at this point, so the
    result is the extension's own. *)
Theorem built_subcommand_runs_with_flag_values `{ExtensionEnv}
    (name : string) (extension : Extension) (cmd : CustomCmd) (sub : SubCmd)
    (values : list (string * FlagValue)) :
  NewCustomCmd name extension = Val (inr cmd) →
  sub ∈ cc_Commands cmd →
  NoDup (List.map param_Name (cmd_Params (sub_Command sub))) →
  values_of (sub_Flags sub) values →
  collectParams (cmd_Params (sub_Command sub)) values ∅ = inr (list_to_map values)
  ∧ values.*1 = List.map param_Name (cmd_Params (sub_Command sub))
  ∧ subRunE extension (sub_Command sub) values
    = match extension_Run extension (cmd_Name (sub_Command sub))
              (list_to_map values) with
      | inl err => InvokeFailed err
      | inr output => Written output
      end.
Proof.
  intros Hnew Hsub Hnd Hvals.
  assert (Hflags : addParams (cmd_Params (sub_Command sub)) []
                   = Val (inr (sub_Flags sub))).
  { unfold NewCustomCmd in Hnew.
    destruct (addCommands _ []) as [[err|subs]|r] eqn:E; [done| |done].
    injection Hnew as <-. cbn [cc_Commands] in Hsub.
    destruct (addCommands_sub _ _ _ E sub Hsub) as [Hin|Hp]; [|done].
    by apply elem_of_nil in Hin. }
  destruct (addParams_shape _ _ _ Hflags) as (new & Hshape & HF).
  cbn [List.map app] in Hshape. rewrite <- Hshape in HF.
  pose proof (values_of_shape _ _ _ Hvals HF) as Hpv.
  assert (Hnames : values.*1 = List.map param_Name (cmd_Params (sub_Command sub))).
  { clear -Hpv. induction Hpv as [|p nv params values [Hn _] _ IH]; [done|].
    cbn [fmap list_fmap List.map]. by rewrite Hn, <- IH. }
  assert (Hnd' : NoDup values.*1) by (by rewrite Hnames).
  assert (Hc : collectParams (cmd_Params (sub_Command sub)) values ∅
               = inr (list_to_map values)).
  { rewrite (collectParams_values values _ values Hpv).
    - by rewrite foldl_insert_list_to_map.
    - intros nv Hnv. by apply flagValue_elem. }
  split_and!; [done..|]. unfold subRunE. by rewrite Hc.
Qed.



End GeneratedCommands.

Lemma first_fields_rejoin_witness :
  let flags := Cmd.mkFilterFlags Sample.tab false None None in
  let row := "a" +:+ Sample.tab +:+ "b" +:+ Sample.tab +:+ "c" in
  let tokens := @Cmd.strings_Split (Sample.filter_env "") row Sample.tab in
  @Cmd.rowItem (Sample.filter_env "") flags row
  = Cmd.Val (inr (Cmd.mkTListItem (default "" (tokens !! 0%nat))
                                  (default "" (tokens !! 1%nat))
                                  (drop 2 tokens)
                                  [Cmd.mkTAction Cmd.PasteAction "Confirm" row]))
  ∧ String.concat Sample.tab tokens = row
  ∧ (0 < length tokens)%nat.
Proof.
  apply (@first_fields_rejoin (Sample.filter_env "")
           (Cmd.mkFilterFlags Sample.tab false None None)
           ("a" +:+ Sample.tab +:+ "b" +:+ Sample.tab +:+ "c")).
  - reflexivity.
  - reflexivity.
  - discriminate.
Defined.

(** The same row, computed. *)
Example first_fields_sample :
  @Cmd.rowItem (Sample.filter_env "") (Cmd.mkFilterFlags Sample.tab false None None)
     ("a" +:+ Sample.tab +:+ "b" +:+ Sample.tab +:+ "c")
  = Cmd.Val (inr (Cmd.mkTListItem "a" "b" ["c"]
       [Cmd.mkTAction Cmd.PasteAction "Confirm"
          ("a" +:+ Sample.tab +:+ "b" +:+ Sample.tab +:+ "c")]))
  ∧ @Cmd.inputRows (Sample.filter_env "") "  " = [""]
  ∧ Cmd.split_scan Cmd.crlf 0 "" ("a" +:+ Cmd.crlf +:+ Cmd.crlf +:+ "b")
    = ["a"; ""; "b"].
Proof. vm_compute. split_and!; reflexivity. Qed.

Lemma filter_page_pastes_rows_witness :
  let page := Cmd.mkTPage Cmd.ListPage "Sunbeam"
                [Cmd.mkTListItem "b" "" [] [Cmd.mkTAction Cmd.PasteAction "Confirm" "a,b"];
                 Cmd.mkTListItem "" "" [] [Cmd.mkTAction Cmd.PasteAction "Confirm" "c"]] in
  Cmd.tp_Type page = Cmd.ListPage
  ∧ Cmd.tp_Title page = "Sunbeam"
  ∧ length (Cmd.tp_Items page) = length ["a,b"; "c"]
  ∧ List.map Cmd.tl_Actions (Cmd.tp_Items page)
    = List.map (fun row => [Cmd.mkTAction Cmd.PasteAction "Confirm" row]) ["a,b"; "c"].
Proof.
  apply (@filter_page_pastes_rows (Sample.filter_env "")
           (Cmd.mkFilterFlags "," false (Some [2]) None) "Sunbeam" ["a,b"; "c"]).
  - reflexivity.
  - vm_compute. reflexivity.
Defined.

Lemma withNth_panics_iff_negative_witness :
  Cmd.withNth ["a"; "b"; "c"] [2; 0; 5; 1]
  = if forallb (fun n => 0 <=? n) [2; 0; 5; 1]
    then Cmd.Val (FilterSpec.field ["a"; "b"; "c"] (default 0 ([2; 0; 5; 1] !! 0%nat)),
                  from_option (FilterSpec.field ["a"; "b"; "c"]) ""
                              ([2; 0; 5; 1] !! 1%nat),
                  List.map (FilterSpec.field ["a"; "b"; "c"]) (drop 2 [2; 0; 5; 1]))
    else Cmd.Panic "index out of range".
Proof.
  apply (withNth_panics_iff_negative ["a"; "b"; "c"] [2; 0; 5; 1]).
  - discriminate.
  - repeat constructor; unfold Cmd.int_min, Cmd.int_max; lia.
  - unfold Cmd.int_max. simpl. lia.
Defined.

(** The fields picked above, and a negative index in last place. *)
Example withNth_samples :
  Cmd.withNth ["a"; "b"; "c"] [2; 0; 5; 1] = Cmd.Val ("b", "", [""; "a"])
  ∧ Cmd.withNth ["a"; "b"; "c"] [2; 1; 3; -2] = Cmd.Panic "index out of range".
Proof. vm_compute. split; reflexivity. Qed.

Lemma built_subcommand_runs_with_flag_values_witness :
  Cmd.collectParams (App.cmd_Params (Cmd.sub_Command Sample.greet_sub))
    Sample.greet_values ∅ = inr (list_to_map Sample.greet_values)
  ∧ Sample.greet_values.*1
    = List.map App.param_Name (App.cmd_Params (Cmd.sub_Command Sample.greet_sub))
  ∧ @Cmd.subRunE Sample.extension_env Sample.sound (Cmd.sub_Command Sample.greet_sub)
      Sample.greet_values
    = match @Cmd.extension_Run Sample.extension_env Sample.sound
              (App.cmd_Name (Cmd.sub_Command Sample.greet_sub))
              (list_to_map Sample.greet_values) with
      | inl err => Cmd.InvokeFailed err
      | inr output => Cmd.Written output
      end.
Proof.
  apply (@built_subcommand_runs_with_flag_values Sample.extension_env
           "sound" Sample.sound Sample.sound_cmd Sample.greet_sub Sample.greet_values).
  - reflexivity.
  - apply elem_of_cons. left. reflexivity.
  - apply NoDup_cons. split.
    + intros Hin. apply elem_of_cons in Hin as [Hin|Hin]; [discriminate|].
      by apply elem_of_nil in Hin.
    + apply NoDup_cons. split; [intros Hin; by apply elem_of_nil in Hin|].
      apply NoDup_nil. exact I.
  - constructor; [split; [reflexivity|exact I]|].
    constructor; [split; [reflexivity|exact I]|]. constructor.
Defined.


(* ===================================================================== *)
(** * Properties of the documentation page                                *)
(* ===================================================================== *)

Section Docs.
Import Cmd DocSpec.

Lemma DocCommand_induction (P : DocCommand → Prop) :
  (∀ g m cs, Forall P cs → P (DocNode g m cs)) → ∀ c, P c.
Proof.
  intros Hn. fix IH 1. intros [g m cs]. apply Hn.
  induction cs as [|c cs IHcs]; constructor; [apply IH|exact IHcs].
Qed.

Lemma buildDoc_node (g : string) (m : error + string) (cs : list DocCommand) :
  buildDoc (DocNode g m cs)
  = if String.eqb g extensionGroupID then inr ""
    else match m with
         | inl err => inl err
         | inr page => childPages cs (keepLines (split_scan lf 0 "" page) "")
         end.
Proof.
  cbn [buildDoc]. destruct (String.eqb g extensionGroupID); [done|].
  destruct m as [err|page]; [done|].
  generalize (keepLines (split_scan lf 0 "" page) "").
  induction cs as [|c cs IH]; intros out; [done|].
  cbn [childPages]. destruct (buildDoc c); [done|]. apply IH.
Qed.

Lemma prune_node (g : string) (m : error + string) (cs : list DocCommand) :
  prune (DocNode g m cs) = DocNode g m (prune_children cs).
Proof.
  reflexivity.
Qed.

Lemma lines_text_app (a b : list string) :
  lines_text (a ++ b) = lines_text a +:+ lines_text b.
Proof.
  induction a as [|l a IH]; [done|].
  cbn [app lines_text]. by rewrite IH, !string_app_assoc.
Qed.

Lemma without_app c (a b : string) :
  without c a → without c b → without c (a +:+ b).
Proof.
  induction a as [|ch a IH]; [done|]. intros [Hc Ha] Hb.
  rewrite string_app_cons. split; [done|]. by apply IH.
Qed.

Lemma prefix_lf (ch : Ascii.ascii) (s : string) :
  String.prefix lf (String ch s) = bool_decide (LF = ch).
Proof.
  unfold lf. cbn [String.prefix]. fold LF.
  destruct (Ascii.ascii_dec LF ch) as [->|Hne].
  - rewrite bool_decide_true by done. by destruct s.
  - by rewrite bool_decide_false.
Qed.

(** The pieces between line feeds hold no line feed. *)
Lemma split_lf_without (s : string) : ∀ cur,
  without LF cur → Forall (without LF) (split_scan lf 0 cur s).
Proof.
  induction s as [|ch s IH]; intros cur Hcur; cbn [split_scan].
  - by constructor.
  - rewrite prefix_lf. case_bool_decide as Hch.
    + constructor; [done|]. by apply IH.
    + apply IH. apply without_app; [done|]. by split.
Qed.

(** Lines without line feeds are what their text splits back into. *)
Lemma split_lf_line (l rest cur : string) :
  without LF l →
  split_scan lf 0 cur (l +:+ lf +:+ rest)
  = (cur +:+ l) :: split_scan lf 0 "" rest.
Proof.
  revert cur. induction l as [|ch l IH]; intros cur Hl.
  - rewrite string_app_nil_l, string_app_nil_r. unfold lf at 2.
    rewrite string_app_cons, string_app_nil_l. cbn [split_scan].
    fold lf. rewrite prefix_lf, bool_decide_true by done. done.
  - destruct Hl as [Hch Hl]. rewrite string_app_cons. cbn [split_scan].
    rewrite prefix_lf, bool_decide_false by done.
    rewrite IH by done. by rewrite string_app_assoc.
Qed.

Lemma split_lines_text (ls : list string) :
  Forall (without LF) ls → split_scan lf 0 "" (lines_text ls) = ls ++ [""].
Proof.
  induction 1 as [|l ls Hl _ IH]; [done|].
  cbn [lines_text app]. by rewrite split_lf_line, IH.
Qed.

Lemma keepLines_plain (lines : list string) : ∀ ls,
  Forall (without LF) lines →
  Forall plain_line ls →
  ∃ ls', keepLines lines (lines_text ls) = lines_text ls' ∧ Forall plain_line ls'.
Proof.
  induction lines as [|line lines IH]; intros ls Hlines Hls; cbn [keepLines].
  - eauto.
  - apply Forall_cons in Hlines as [Hline Hlines].
    destruct (contains "SEE ALSO" line) eqn:Hc; [eauto|].
    destruct (IH (ls ++ [line])) as (ls' & Hk & Hp); [done| |].
    + apply Forall_app. split; [done|]. by repeat constructor.
    + exists ls'. split; [|done]. rewrite <- Hk, lines_text_app.
      cbn [lines_text]. by rewrite string_app_nil_r.
Qed.

Lemma childPages_plain (cs : list DocCommand) :
  Forall (fun c => ∀ out, buildDoc c = inr out →
                          ∃ ls, out = lines_text ls ∧ Forall plain_line ls) cs →
  ∀ ls out,
    Forall plain_line ls →
    childPages cs (lines_text ls) = inr out →
    ∃ ls', out = lines_text ls' ∧ Forall plain_line ls'.
Proof.
  induction 1 as [|c cs Hc _ IH]; intros ls out Hls Hout; cbn [childPages] in Hout.
  - injection Hout as <-. eauto.
  - destruct (buildDoc c) as [err|childPage] eqn:E; [done|].
    destruct (Hc _ eq_refl) as (lc & -> & Hlc).
    rewrite <- lines_text_app in Hout.
    apply (IH (ls ++ lc)); [|done]. by apply Forall_app.
Qed.

Lemma buildDoc_plain (command : DocCommand) :
  ∀ out, buildDoc command = inr out →
         ∃ ls, out = lines_text ls ∧ Forall plain_line ls.
Proof.
  induction command as [g m cs IH] using DocCommand_induction.
  intros out. rewrite buildDoc_node.
  destruct (String.eqb g extensionGroupID).
  - intros [= <-]. by exists [].
  - destruct m as [err|page]; [done|].
    destruct (keepLines_plain (split_scan lf 0 "" page) [])
      as (ls0 & Hk & Hp0); [by apply split_lf_without|done|].
    cbn [lines_text] in Hk. rewrite Hk.
    by apply childPages_plain.
Qed.

(** X21.  A documentation page that is built consists of whole lines, each
    ended by a line feed, and none of its lines contains "SEE ALSO",
    whatever the commands render to. *)
Theorem docs_have_no_see_also (command : DocCommand) (out : string) :
  buildDoc command = inr out →
  ∃ ls, out = lines_text ls
        ∧ split_scan lf 0 "" out = ls ++ [""]
        ∧ Forall (fun l => contains "SEE ALSO" l = false) ls.
Proof.
  intros Hb. destruct (buildDoc_plain command out Hb) as (ls & -> & Hp).
  exists ls. split_and!; [done| |].
  - apply split_lines_text. eapply Forall_impl; [exact Hp|]. by intros l [? ?].
  - eapply Forall_impl; [exact Hp|]. by intros l [? ?].
Qed.

Lemma childPages_prune (cs : list DocCommand) :
  Forall (fun c => buildDoc (prune c) = buildDoc c) cs →
  ∀ out, childPages (prune_children cs) out = childPages cs out.
Proof.
  induction 1 as [|c cs Hc _ IH]; intros out; [done|].
  cbn [prune_children childPages].
  destruct (String.eqb (group_of c) extensionGroupID) eqn:Eg.
  - destruct c as [g m gc]. cbn [group_of] in Eg.
    rewrite (buildDoc_node g m gc), Eg, string_app_nil_r. apply IH.
  - cbn [childPages]. rewrite Hc. destruct (buildDoc c); [done|]. apply IH.
Qed.

(** X22.  Commands of the extension group, with everything below them,
    contribute nothing to the documentation page: the page, or the error,
    is the same as for the tree with those commands removed, so they are
    neither shown nor rendered. *)
Theorem docs_skip_extension_commands (command : DocCommand) :
  buildDoc (prune command) = buildDoc command.
Proof.
  induction command as [g m cs IH] using DocCommand_induction.
  rewrite prune_node, !buildDoc_node.
  destruct (String.eqb g extensionGroupID); [done|].
  destruct m as [err|page]; [done|]. by apply childPages_prune.
Qed.

End Docs.

Lemma docs_have_no_see_also_witness :
  ∃ ls, Sample.doc_page = DocSpec.lines_text ls
        ∧ Cmd.split_scan Cmd.lf 0 "" Sample.doc_page = ls ++ [""]
        ∧ Forall (fun l => Cmd.contains "SEE ALSO" l = false) ls.
Proof.
  apply (docs_have_no_see_also Sample.doc_tree Sample.doc_page).
  vm_compute. reflexivity.
Defined.

(** The sample page is built although the extension command has no page,
    and it is the page of the tree without that command. *)
Example doc_samples :
  Cmd.buildDoc Sample.doc_tree = inr Sample.doc_page
  ∧ DocSpec.prune Sample.doc_tree
    = Cmd.DocNode ""
        (inr ("# sunbeam" +:+ Cmd.lf +:+ "usage" +:+ Cmd.lf
              +:+ "### SEE ALSO" +:+ Cmd.lf +:+ "* sunbeam run"))
        [Cmd.DocNode "core" (inr ("## run" +:+ Cmd.lf +:+ "run it")) []].
Proof. vm_compute. split; reflexivity. Qed.

Section PushPop.
Import Tui.
Context `{Host}.

(** X23.  A push followed by a pop leaves the model as it was: the same
    root, stack, dimensions and flags; nothing quits, and the only trace is
    that the page that was pushed has been given the model's size. *)
Theorem push_then_pop_restores (m : Model) (p : PageRef) (hp : Heap) :
  let '(m1, c1, hp1) := Update m (pushMsg p) hp in
  let '(m2, c2, hp2) := Update m1 popMsg hp1 in
  m2 = m
  ∧ active m1 = p
  ∧ c1 = CmdPageInit p ∧ c2 = CmdNil
  ∧ hp2 = page_SetSize p (width m) (height m) hp.
Proof.
  destruct m as [w h r s hid ex]. cbn [Update Push pages width height root hidden exit].
  rewrite length_app, Nat.add_1_r. cbn [Nat.eqb].
  rewrite Pop_snoc. unfold active. cbn [pages]. rewrite last_snoc.
  by split_and!.
Qed.

End PushPop.
